(** * rio-tiler mosaic examples: pixel selection and tile handlers

    A shallow embedding of the Python code of the documentation notebooks
    (the [CustomFourthBandH] pixel-selection method of the mosaic notebook
    and the [TileHandler._get_tile] request handlers of the tile-server
    notebooks), together with a model of the mosaic engine they drive.

    Arrays are nested lists (bands, rows, columns).  A numpy masked array
    is a pair of such arrays; as in [numpy.ma], a mask bit [true] means
    MASKED, that is, the element is not valid. *)

From Stdlib Require Import ZArith QArith Lia String Ascii Decimal DecimalString DecimalNat.
From stdpp Require Import base option list list_numbers.

Close Scope Q_scope.
Local Open Scope nat_scope.

Abbreviation grid A := (list (list A)).
Abbreviation cube A := (list (list (list A))).

(** ** Python exceptions as an error monad *)

Inductive PyError : Set :=
  | IndexError
  | ValueError
  | TileOutsideBounds              (* rio_tiler.errors.TileOutsideBounds *)
  | HTTPError (status_code : nat)  (* tornado.web.HTTPError *)
  | OtherError.                    (* any other exception *)

Inductive result (A : Type) : Type :=
  | Ok (a : A)
  | Raise (e : PyError).

Arguments Ok {A} a.
Arguments Raise {A} e.

Definition bind {A B : Type} (r : result A) (k : A → result B) : result B :=
  match r with
  | Ok a => k a
  | Raise e => Raise e
  end.

Notation "x ←! r ; k" := (bind r (λ x, k))
  (at level 20, r at level 100, k at level 200, only parsing).

(** ** numpy: the element-wise operations used by the notebooks *)

Fixpoint zip_with3 {A B C D : Type} (f : A → B → C → D)
    (l1 : list A) (l2 : list B) (l3 : list C) : list D :=
  match l1, l2, l3 with
  | a :: l1', b :: l2', c :: l3' => f a b c :: zip_with3 f l1' l2' l3'
  | _, _, _ => []
  end.

Module numpy.

(** [a[i, j]] and [a[b, i, j]], [None] out of range. *)
Definition at2 {A : Type} (g : grid A) (i j : nat) : option A :=
  g !! i ≫= (λ row, row !! j).

Definition at3 {A : Type} (c : cube A) (b i j : nat) : option A :=
  c !! b ≫= (λ g, at2 g i j).

(** The shape of an array, kept as the length of every row of every
    band, so that it is defined for every nested list. *)
Definition shape {A : Type} (c : cube A) : list (list nat) :=
  map (map length) c.

(** [x > y] on two 2-D arrays. *)
Definition greater (x y : grid Z) : grid bool :=
  zip_with (zip_with Z.gtb) x y.

(** [~m] on a boolean array. *)
Definition invert (m : cube bool) : cube bool :=
  map (map (map negb)) m.

(** [numpy.bitwise_and(g, m)] for [g] of shape (h, w) and [m] of shape
    (n, h, w): [g] is broadcast along the band axis. *)
Definition bitwise_and (g : grid bool) (m : cube bool) : cube bool :=
  map (λ band, zip_with (zip_with andb) g band) m.

(** [x | y] on two boolean arrays of one shape. *)
Definition bitwise_or (x y : cube bool) : cube bool :=
  zip_with (zip_with (zip_with orb)) x y.

(** [numpy.where(c, x, y)]. *)
Definition where_ {A : Type} (c : cube bool) (x y : cube A) : cube A :=
  zip_with3 (zip_with3 (zip_with3 (λ (p : bool) u v, if p then u else v)))
    c x y.

End numpy.

(** ** numpy.ma: masked arrays

    The mask is kept as a full boolean array ([numpy.ma.getmaskarray]); in
    numpy it always has the shape of the data, which [wf_array] below
    states. *)

Module ma.

Record MaskedArray : Type := Build {
  data : cube Z;
  mask : cube bool      (* true = masked (not valid) *)
}.

(** [numpy.ma.where(c, x, y)] for a plain boolean condition [c]: the data
    and the mask are both chosen element by element. *)
Definition where_ (c : cube bool) (x y : MaskedArray) : MaskedArray :=
  {| data := numpy.where_ c (data x) (data y);
     mask := numpy.where_ c (mask x) (mask y) |}.

(** [a.mask = m]. *)
Definition set_mask (a : MaskedArray) (m : cube bool) : MaskedArray :=
  {| data := data a; mask := m |}.

(** [a[:-1].copy()]: every band but the last one, data and mask. *)
Definition drop_last (a : MaskedArray) : MaskedArray :=
  {| data := removelast (data a); mask := removelast (mask a) |}.

(** [a.count()]: the number of elements that are not masked. *)
Definition count (a : MaskedArray) : nat :=
  sum_list (map (λ g, sum_list (map (λ row, length (filter (λ x, x = false) row)) g))
                (mask a)).

End ma.

(** ** The CustomFourthBandH pixel-selection method (mosaic notebook) *)

Module CustomFourthBandH.

(** The object's state: [self.mosaic]. *)
Record t : Type := Build { mosaic : option ma.MaskedArray }.

(** Modelled from the spec: a selector is created fresh for each request,
    with nothing accumulated (section 3).  The base class
    [MosaicMethodBase], which declares the field [mosaic], is not part of
    the notebook; [self.mosaic is None] is the state that both methods
    below test for. *)
Definition init : t := {| mosaic := None |}.

(** The [data] property. *)
Definition data (self : t) : option ma.MaskedArray :=
  match mosaic self with
  | Some m => Some (ma.drop_last m)
  | None => None
  end.

(** [feed(self, array)].  [array.data[-1]] raises IndexError on an array
    without bands; the element-wise operations raise ValueError when the
    fed array and the accumulator do not have one shape (numpy's
    broadcasting between unequal shapes is outside this model: callers
    feed tiles of one shape). *)
Definition feed (self : t) (array : ma.MaskedArray) : result t :=
  match mosaic self with
  | None => Ok {| mosaic := Some array |}
  | Some m =>
      match last (ma.data array), last (ma.data m) with
      | Some a_last, Some m_last =>
          if bool_decide (numpy.shape (ma.data array) = numpy.shape (ma.data m))
          then
            let pidex :=
              numpy.bitwise_or
                (numpy.bitwise_and (numpy.greater a_last m_last)
                                   (numpy.invert (ma.mask array)))
                (ma.mask m) in
            let mask := numpy.where_ pidex (ma.mask array) (ma.mask m) in
            let mosaic' := ma.where_ pidex array m in
            Ok {| mosaic := Some (ma.set_mask mosaic' mask) |}
          else Raise ValueError
      | _, _ => Raise IndexError
      end
  end.

(** Successive calls of [feed], stopping at the first exception. *)
Fixpoint feeds (self : t) (arrays : list ma.MaskedArray) : result t :=
  match arrays with
  | [] => Ok self
  | a :: rest => s ←! feed self a; feeds s rest
  end.

End CustomFourthBandH.

(** ** The mosaic engine

    The engine itself ([rio_tiler.mosaic], [rio_tiler.models]) is not part
    of the notebooks, which only call it; it is modelled here from its
    specification. *)

Module ImageTile.

(** Modelled from the spec: the ImageTile value type (section 3), which
    stands for [rio_tiler.models.ImageData]: one 2-D array per band and
    one 2-D mask, [true] = valid. *)
Record t (V : Type) : Type := Build {
  bands : list (grid V);
  mask : grid bool
}.
Arguments Build {V} bands mask.
Arguments bands {V} tile : rename.
Arguments mask {V} tile : rename.

(** Modelled from the spec: the mask bit of pixel (i, j), [false] outside
    the grid. *)
Definition valid_at {V : Type} (tile : t V) (i j : nat) : bool :=
  default false (numpy.at2 (mask tile) i j).

(** Modelled from the spec: the band values of a valid pixel; [None] for a
    pixel that is not valid, which contributes nothing (section 3). *)
Definition pixel {V : Type} (tile : t V) (i j : nat) : option (list V) :=
  if valid_at tile i j
  then mapM (λ band : grid V, numpy.at2 band i j) (bands tile)
  else None.

(** Modelled from the spec: the coverage of a tile, as its number of valid
    pixels (glossary). *)
Definition coverage {V : Type} (tile : t V) : nat :=
  sum_list (map (λ row, length (filter (λ x, x = true) row)) (mask tile)).

End ImageTile.

Module Policy.

(** Modelled from the spec: the built-in compositing policies of section
    4.1 (the classes of [rio_tiler.mosaic.methods.defaults]).  Each policy
    is given, as in the table of section 4.1, by what it does at one pixel
    with the band values of a tile that is valid there. *)
Inductive t : Set := First | Highest | Lowest | Mean | Stdev | Count.

(** Modelled from the spec: the accumulator of one pixel (section 3): the
    values kept so far (First, Highest, Lowest); running sum and count
    (Mean); running sum, sum of squares and count (Stdev); the count
    (Count). *)
Definition acc (p : t) : Type :=
  match p with
  | First => option (list Z)
  | Highest => option (list Z)
  | Lowest => option (list Z)
  | Mean => (list Z * nat)%type
  | Stdev => (list Z * list Z * nat)%type
  | Count => nat
  end.

(** Modelled from the spec: the accumulator of a pixel before any tile. *)
Definition acc0 (p : t) (n : nat) : acc p :=
  match p return acc p with
  | First => None
  | Highest => None
  | Lowest => None
  | Mean => (replicate n 0%Z, 0)
  | Stdev => (replicate n 0%Z, replicate n 0%Z, 0)
  | Count => 0
  end.

(** Modelled from the spec: the comparison band of Highest and Lowest, by
    default the last band. *)
Definition decision (vs : list Z) : Z := default 0%Z (last vs).

(** Modelled from the spec: the rules of the table of section 4.1, for the
    values [vs] of a tile valid at the pixel.  First keeps what it has;
    Highest and Lowest replace it only by a strictly better value, so that
    ties go to the tile fed first; Mean, Stdev and Count accumulate. *)
Definition step (p : t) : acc p → list Z → acc p :=
  match p return acc p → list Z → acc p with
  | First => λ a vs,
      match a with Some _ => a | None => Some vs end
  | Highest => λ a vs,
      match a with
      | Some old => if (decision old <? decision vs)%Z then Some vs else a
      | None => Some vs
      end
  | Lowest => λ a vs,
      match a with
      | Some old => if (decision vs <? decision old)%Z then Some vs else a
      | None => Some vs
      end
  | Mean => λ a vs, (zip_with Z.add a.1 vs, S a.2)
  | Stdev => λ a vs,
      (zip_with Z.add a.1.1 vs,
       zip_with Z.add a.1.2 (map (λ v, v * v)%Z vs),
       S a.2)
  | Count => λ c _, S c
  end.

(** Modelled from the spec: the quotient of a running sum by the count, as
    an exact rational in lowest terms. *)
Definition ratio (s : Z) (cnt : nat) : Q :=
  Qred (inject_Z s / inject_Z (Z.of_nat cnt)).

(** Modelled from the spec: the output at one pixel, [None] when the pixel
    is not valid (no valid contribution was seen).  For Stdev the value
    given is the biased variance, whose square root is the standard
    deviation. *)
Definition emit (p : t) : acc p → option (list Q) :=
  match p return acc p → option (list Q) with
  | First => λ a, map inject_Z <$> a
  | Highest => λ a, map inject_Z <$> a
  | Lowest => λ a, map inject_Z <$> a
  | Mean => λ a,
      match a.2 with
      | 0 => None
      | S _ => Some (map (λ s, ratio s a.2) a.1)
      end
  | Stdev => λ a,
      match a.2 with
      | 0 => None
      | S _ =>
          Some (zip_with (λ s q, Qred (ratio q a.2 - ratio s a.2 * ratio s a.2))
                         a.1.1 a.1.2)
      end
  | Count => λ c,
      match c with
      | 0 => None
      | S _ => Some [inject_Z (Z.of_nat c)]
      end
  end.

(** Modelled from the spec: the number of bands of the output for tiles of
    [n] bands; Count yields one band of counts. *)
Definition out_bands (p : t) (n : nat) : nat :=
  match p with Count => 1 | _ => n end.

(** Modelled from the spec: the selector's state, one accumulator per pixel
    of the tile grid. *)
Record state (p : t) : Type := State {
  count : nat;                  (* bands per tile *)
  accs : grid (acc p)
}.
Arguments State {p} count accs.
Arguments count {p} st : rename.
Arguments accs {p} st : rename.

(** Modelled from the spec: the selector the factory returns for tiles of
    [n] bands on a grid of [h] rows and [w] columns. *)
Definition fresh (p : t) (n h w : nat) : state p :=
  {| count := n; accs := replicate h (replicate w (acc0 p n)) |}.

(** Modelled from the spec: a pixel that is not valid in the fed tile
    contributes nothing. *)
Definition absorb (p : t) (a : acc p) (px : option (list Z)) : acc p :=
  match px with
  | Some vs => step p a vs
  | None => a
  end.

(** Modelled from the spec: [feed], every pixel on its own. *)
Definition feed (p : t) (st : state p) (tile : ImageTile.t Z) : state p :=
  {| count := count st;
     accs := imap (λ i row,
               imap (λ j a, absorb p a (ImageTile.pixel tile i j)) row)
               (accs st) |}.

(** Modelled from the spec: the output is valid at the pixel. *)
Definition pixel_done (p : t) (a : acc p) : bool :=
  bool_decide (is_Some (emit p a)).

(** Modelled from the spec: [is_done].  Only First reports completion,
    once every pixel is valid; the other policies keep the default,
    [false]. *)
Definition is_done (p : t) (st : state p) : bool :=
  match p with
  | First => forallb (forallb (pixel_done p)) (accs st)
  | _ => false
  end.

(** Modelled from the spec: [result].  Pixels without a valid contribution
    keep the sentinel 0 and a [false] mask bit. *)
Definition result (p : t) (st : state p) : ImageTile.t Q :=
  {| ImageTile.bands :=
       map (λ b, map (map (λ a, default 0%Q (emit p a ≫= (λ vs, vs !! b))))
                     (accs st))
           (seq 0 (out_bands p (count st)));
     ImageTile.mask := map (map (pixel_done p)) (accs st) |}.

End Policy.

Module PixelSelector.

(** Modelled from the spec: the selector contract of section 4.1, the
    capability set feed, is_done, result. *)
Record t : Type := Build {
  state : Type;
  feed : state → ImageTile.t Z → state;
  is_done : state → bool;
  result : state → ImageTile.t Q
}.

(** Modelled from the spec: the built-in policies as selectors. *)
Definition builtin (p : Policy.t) : t :=
  {| state := Policy.state p;
     feed := Policy.feed p;
     is_done := Policy.is_done p;
     result := Policy.result p |}.

End PixelSelector.

Module MosaicReader.

(** Modelled from the spec: the outcome of fetching one asset (sections
    4.2 and 6). *)
Inductive FetchResult : Type :=
  | Fetched (tile : ImageTile.t Z)
  | OutsideBounds
  | FetchError.

(** Modelled from the spec: the fetch produced a tile. *)
Definition is_fetched (r : FetchResult) : bool :=
  match r with Fetched _ => true | _ => false end.

(** Modelled from the spec: MosaicResult (section 3). *)
Record MosaicResult (AssetId : Type) : Type := Build {
  mosaic : ImageTile.t Q;
  assets_used : list AssetId
}.
Arguments Build {AssetId} mosaic assets_used.
Arguments mosaic {AssetId} r : rename.
Arguments assets_used {AssetId} r : rename.

Section Composite.
Context {AssetId : Type}.
Variable fetch_tile : AssetId → FetchResult.
Variable sel : PixelSelector.t.

(** Modelled from the spec: step 1 of section 4.2, batches of at most [k]
    assets. *)
Fixpoint batches_upto (fuel k : nat) (assets : list AssetId)
    : list (list AssetId) :=
  match fuel, assets with
  | S fuel', _ :: _ =>
      take k assets :: batches_upto fuel' k (drop k assets)
  | _, _ => []
  end.

(** Modelled from the spec: the batches of the whole sequence. *)
Definition batches (k : nat) (assets : list AssetId) : list (list AssetId) :=
  batches_upto (length assets) k assets.

(** Modelled from the spec: step 3, for one resolved asset.  A fetched
    tile is fed and its asset recorded; an asset outside the tile bounds or
    whose fetch failed is skipped (the record of failures kept for
    diagnostics is not part of the result and is left out). *)
Definition resolve (acc : PixelSelector.state sel * list AssetId)
    (r : AssetId * FetchResult) : PixelSelector.state sel * list AssetId :=
  match r.2 with
  | Fetched tile => (PixelSelector.feed sel acc.1 tile, acc.2 ++ [r.1])
  | OutsideBounds => acc
  | FetchError => acc
  end.

(** Modelled from the spec: steps 2 and 3.  Every asset of the batch is
    fetched, then the outcomes are taken in the order of the asset
    sequence. *)
Definition process_batch (acc : PixelSelector.state sel * list AssetId)
    (batch : list AssetId) : PixelSelector.state sel * list AssetId :=
  foldl resolve acc (map (λ a, (a, fetch_tile a)) batch).

(** Modelled from the spec: steps 4 and 5.  [is_done] is checked after
    each batch. *)
Fixpoint run (acc : PixelSelector.state sel * list AssetId)
    (bs : list (list AssetId)) : PixelSelector.state sel * list AssetId :=
  match bs with
  | [] => acc
  | batch :: rest =>
      let acc' := process_batch acc batch in
      if PixelSelector.is_done sel acc'.1 then acc' else run acc' rest
  end.

(** Modelled from the spec: [composite] of section 4.2, which stands
    for [rio_tiler.mosaic.mosaic_reader]; [s0] is the selector the
    factory returns. *)
Definition composite (assets : list AssetId) (s0 : PixelSelector.state sel)
    (max_concurrency : nat) : MosaicResult AssetId :=
  let final := run (s0, []) (batches max_concurrency assets) in
  {| mosaic := PixelSelector.result sel final.1; assets_used := final.2 |}.

End Composite.

End MosaicReader.

(** ** The tile servers (tile-server notebooks)

    A request handler is run by tornado, which is not part of the
    notebooks: [serve] below states what tornado answers for the outcome
    of a handler's [get]. *)

Module tornado.

(** What a handler has produced so far: the headers set by [set_header]
    and the chunks passed to [write]. *)
Record RequestHandler (Bytes : Type) : Type := Build {
  headers : list (string * string);
  written : list Bytes
}.
Arguments Build {Bytes} headers written.
Arguments headers {Bytes} self : rename.
Arguments written {Bytes} self : rename.

Definition set_header {Bytes : Type} (self : RequestHandler Bytes)
    (name value : string) : RequestHandler Bytes :=
  {| headers := headers self ++ [(name, value)]; written := written self |}.

Definition write {Bytes : Type} (self : RequestHandler Bytes) (chunk : Bytes)
    : RequestHandler Bytes :=
  {| headers := headers self; written := written self ++ [chunk] |}.

Record Response (Bytes : Type) : Type := Respond {
  status : nat;
  body : list Bytes        (* the chunks the handler wrote *)
}.
Arguments Respond {Bytes} status body.
Arguments status {Bytes} r : rename.
Arguments body {Bytes} r : rename.

(** A handler that returns is answered with status 200 and what it wrote;
    one that raises [HTTPError(code)] with that status, and one that raises
    anything else with status 500; in both cases what the handler wrote is
    dropped (tornado sends its own error page). *)
Definition serve {Bytes : Type} (r : result (RequestHandler Bytes))
    : Response Bytes :=
  match r with
  | Ok self => {| status := 200; body := written self |}
  | Raise (HTTPError code) => {| status := code; body := [] |}
  | Raise _ => {| status := 500; body := [] |}
  end.

End tornado.

(** The handler of the non-Earth notebook. *)
Module NonEarthTileHandler.
Section Handler.
Context {ImageData Bytes : Type}.
(** [with Reader(self.url, tms=europa_tms) as src: src.tile(x, y, z)] *)
Variable tile : nat → nat → nat → result ImageData.
(** [data.post_process(in_range=((0, 0.5),))] *)
Variable post_process : ImageData → result ImageData.
(** [image.render(img_format="PNG", **prof)] *)
Variable render : ImageData → result Bytes.

Definition _get_tile (z x y : nat) : result Bytes :=
  match tile x y z with
  | Raise TileOutsideBounds => Raise (HTTPError 404)
  | Raise e => Raise e
  | Ok data =>
      image ←! post_process data;
      render image
  end.

Definition get (self : tornado.RequestHandler Bytes) (z x y : nat)
    : result (tornado.RequestHandler Bytes) :=
  let self := tornado.set_header self "Access-Control-Allow-Origin" "*" in
  let self := tornado.set_header self "Access-Control-Allow-Methods" "GET" in
  let self := tornado.set_header self "Content-Type" "image/png" in
  let self := tornado.set_header self "Cache-Control"
                "no-store, no-cache, must-revalidate" in
  res ←! _get_tile z x y;
  Ok (tornado.write self res).

End Handler.
End NonEarthTileHandler.

(** The handler of the tile-matrix-set notebook. *)
Module TmsTileHandler.
Section Handler.
Context {ImageData Bytes : Type}.
(** [with Reader(self.url, tms=morecantile.tms.get(tms)) as cog:
    cog.tile(x, y, z, indexes=(1, 2, 3))] *)
Variable tile : string → nat → nat → nat → result ImageData.
(** [img.render(img_format="PNG", **prof)] *)
Variable render : ImageData → result Bytes.

Definition _get_tile (tms : string) (z x y : nat) : result Bytes :=
  match tile tms x y z with
  | Raise TileOutsideBounds => Raise (HTTPError 404)
  | Raise e => Raise e
  | Ok img => render img
  end.

Definition get (self : tornado.RequestHandler Bytes) (tms : string) (z x y : nat)
    : result (tornado.RequestHandler Bytes) :=
  let self := tornado.set_header self "Access-Control-Allow-Origin" "*" in
  let self := tornado.set_header self "Access-Control-Allow-Methods" "GET" in
  let self := tornado.set_header self "Content-Type" "image/png" in
  let self := tornado.set_header self "Cache-Control"
                "no-store, no-cache, must-revalidate" in
  res ←! _get_tile tms z x y;
  Ok (tornado.write self res).

End Handler.
End TmsTileHandler.

(** ** The tilers of the mosaic notebook *)

Module MosaicNotebook.

(** What the notebook reads from, and passes to, [rio_tiler.models.ImageData]:
    the constructor call [ImageData(data, mask, crs=..., bounds=...)] and
    the attributes of the same names. *)
Record ImageData (Mask Crs Bounds : Type) : Type := Build {
  data : cube Z;
  mask : Mask;
  crs : Crs;
  bounds : Bounds
}.
Arguments Build {Mask Crs Bounds} data mask crs bounds.
Arguments data {Mask Crs Bounds} img : rename.
Arguments mask {Mask Crs Bounds} img : rename.
Arguments crs {Mask Crs Bounds} img : rename.
Arguments bounds {Mask Crs Bounds} img : rename.

(** The keyword argument that selects what [tile] reads. *)
Inductive Selection : Type :=
  | assets (name : string)
  | expression (formula : string).

(** [numpy.concatenate((x, y))], along the band axis: the rows and columns
    of all bands must match exactly (an array without bands carries no
    grid in this representation, and is accepted). *)
Definition concatenate {A : Type} (x y : cube A) : result (cube A) :=
  match numpy.shape x ++ numpy.shape y with
  | [] => Ok []
  | g :: gs =>
      if forallb (λ g', bool_decide (g' = g)) gs
      then Ok (x ++ y)
      else Raise ValueError
  end.

Section Tilers.
Context {Asset Args Mask Crs Bounds : Type}.
(** [with STACReader(asset) as stac: stac.tile( *args, ...)] *)
Variable tile : Asset → Args → Selection → result (ImageData Mask Crs Bounds).

(** The first [custom_tiler]: the NDVI alone. *)
Definition ndvi_tiler (asset : Asset) (args : Args) : result (ImageData Mask Crs Bounds) :=
  tile asset args (expression "(B08_b1-B04_b1)/(B08_b1+B04_b1)").

(** The second [custom_tiler]: the visual bands, then the NDVI. *)
Definition custom_tiler (asset : Asset) (args : Args)
    : result (ImageData Mask Crs Bounds) :=
  img ←! tile asset args (assets "visual");
  ndvi ←! tile asset args (expression "(B08_b1-B04_b1)/(B08_b1+B04_b1)");
  bands ←! concatenate (data img) (data ndvi);
  Ok (Build bands (mask img) (crs img) (bounds img)).

End Tilers.
End MosaicNotebook.

(** ** Routing a tile request

    The routes are regular expressions, to which tornado appends [$], and
    the map layers ask for the paths [/tiles/{z}/{x}/{y}] and
    [/tiles/{tms}/{z}/{x}/{y}].  A character of a path stands for a code
    point below 256, which is what a path holds once tornado has decoded
    the request line (as Latin-1). *)

Module routes.

(** [\d] on the code points below 256: the ten decimal digits. *)
Definition is_digit (c : ascii) : bool :=
  let n := nat_of_ascii c in (48 <=? n) && (n <=? 57).

(** [\w] on the code points below 256: the digits, the ASCII letters and
    the underscore, and the alphanumeric characters of Latin-1 (the
    ordinal indicators, the micro sign, the superscript digits, the vulgar
    fractions and the accented letters; neither the multiplication nor the
    division sign). *)
Definition is_word (c : ascii) : bool :=
  let n := nat_of_ascii c in
  is_digit c || ((65 <=? n) && (n <=? 90)) || ((97 <=? n) && (n <=? 122))
  || (n =? 95)
  || (n =? 170) || ((178 <=? n) && (n <=? 179)) || (n =? 181)
  || ((185 <=? n) && (n <=? 186)) || ((188 <=? n) && (n <=? 190))
  || ((192 <=? n) && (n <=? 214)) || ((216 <=? n) && (n <=? 246))
  || ((248 <=? n) && (n <=? 255)).

(** The longest prefix of [s] made of characters in the class, and the
    rest of [s]. *)
Fixpoint span (class : ascii → bool) (s : string) : string * string :=
  match s with
  | String c s' =>
      if class c
      then let r := span class s' in (String c r.1, r.2)
      else (EmptyString, s)
  | EmptyString => (EmptyString, EmptyString)
  end.

(** A group [(\d+)] or [(\w+)] followed by a character outside the class
    or by the end of the path: it takes every character of the class. *)
Definition group (class : ascii → bool) (s : string) : option (string * string) :=
  match span class s with
  | (EmptyString, _) => None
  | (g, rest) => Some (g, rest)
  end.

(** A literal piece of the pattern. *)
Fixpoint literal (lit s : string) : option string :=
  match lit, s with
  | EmptyString, _ => Some s
  | String a lit', String c s' => if Ascii.eqb a c then literal lit' s' else None
  | String _ _, EmptyString => None
  end.

(** The line feed. *)
Definition newline : string := String "010" EmptyString.

(** [$]: the end of the path, or a line feed that ends the path. *)
Definition at_end (s : string) : bool :=
  match s with
  | EmptyString => true
  | String c EmptyString => Ascii.eqb c "010"
  | String _ (String _ _) => false
  end.

(** The route of the non-Earth notebook, [^/tiles/(\d+)/(\d+)/(\d+)$]. *)
Definition tiles (path : string) : option (string * string * string) :=
  rest ← literal "/tiles/" path;
  zr ← group is_digit rest;
  rest ← literal "/" zr.2;
  xr ← group is_digit rest;
  rest ← literal "/" xr.2;
  yr ← group is_digit rest;
  if at_end yr.2 then Some (zr.1, xr.1, yr.1) else None.

(** The route of the tile-matrix-set notebook,
    [^/tiles/(\w+)/(\d+)/(\d+)/(\d+)$]. *)
Definition tms_tiles (path : string) : option (string * string * string * string) :=
  rest ← literal "/tiles/" path;
  tr ← group is_word rest;
  rest ← literal "/" tr.2;
  zr ← group is_digit rest;
  rest ← literal "/" zr.2;
  xr ← group is_digit rest;
  rest ← literal "/" xr.2;
  yr ← group is_digit rest;
  if at_end yr.2 then Some (tr.1, zr.1, xr.1, yr.1) else None.

(** [int(s)] on the strings the routes capture: decimal digits.  Python
    refuses to convert more than 4300 digits. *)
Definition int_ (s : string) : result nat :=
  match s with
  | EmptyString => Raise ValueError
  | String _ _ =>
      if 4300 <? String.length s then Raise ValueError
      else match NilEmpty.uint_of_string s with
           | Some d => Ok (Nat.of_uint d)
           | None => Raise ValueError
           end
  end.




End routes.

(** The application of the non-Earth notebook: [get] as the route calls
    it, with the captured strings. *)
Module NonEarthApplication.
Section Application.
Context {ImageData Bytes : Type}.
Variable tile : nat → nat → nat → result ImageData.
Variable post_process : ImageData → result ImageData.
Variable render : ImageData → result Bytes.

Definition get (self : tornado.RequestHandler Bytes) (z x y : string)
    : result (tornado.RequestHandler Bytes) :=
  let self := tornado.set_header self "Access-Control-Allow-Origin" "*" in
  let self := tornado.set_header self "Access-Control-Allow-Methods" "GET" in
  let self := tornado.set_header self "Content-Type" "image/png" in
  let self := tornado.set_header self "Cache-Control"
                "no-store, no-cache, must-revalidate" in
  z' ←! routes.int_ z;
  x' ←! routes.int_ x;
  y' ←! routes.int_ y;
  res ←! NonEarthTileHandler._get_tile tile post_process render z' x' y';
  Ok (tornado.write self res).

(** A GET request: tornado calls [get] with the groups of the route, and
    answers 404 itself when the route does not match. *)
Definition request (path : string) : tornado.Response Bytes :=
  match routes.tiles path with
  | Some (z, x, y) => tornado.serve (get (tornado.Build [] []) z x y)
  | None => {| tornado.status := 404; tornado.body := [] |}
  end.

End Application.
End NonEarthApplication.

(** The application of the tile-matrix-set notebook. *)
Module TmsApplication.
Section Application.
Context {ImageData Bytes : Type}.
Variable tile : string → nat → nat → nat → result ImageData.
Variable render : ImageData → result Bytes.

Definition get (self : tornado.RequestHandler Bytes) (tms z x y : string)
    : result (tornado.RequestHandler Bytes) :=
  let self := tornado.set_header self "Access-Control-Allow-Origin" "*" in
  let self := tornado.set_header self "Access-Control-Allow-Methods" "GET" in
  let self := tornado.set_header self "Content-Type" "image/png" in
  let self := tornado.set_header self "Cache-Control"
                "no-store, no-cache, must-revalidate" in
  z' ←! routes.int_ z;
  x' ←! routes.int_ x;
  y' ←! routes.int_ y;
  res ←! TmsTileHandler._get_tile tile render tms z' x' y';
  Ok (tornado.write self res).

Definition request (path : string) : tornado.Response Bytes :=
  match routes.tms_tiles path with
  | Some (tms, z, x, y) => tornado.serve (get (tornado.Build [] []) tms z x y)
  | None => {| tornado.status := 404; tornado.body := [] |}
  end.

End Application.
End TmsApplication.

(** ** The life cycle of the tile servers

    [TileServer] is the same class in both notebooks but for the route of
    its application.  It keeps the HTTP server it started in [self.server];
    what [start] and [stop] act on is outside the object: the listening
    sockets of the machine. *)

Module HTTPServer.

(** The HTTP server objects created so far, numbered in creation order,
    and the listening sockets: a port and the server that owns it. *)
Record World : Type := Build {
  created : nat;
  sockets : list (N * nat)
}.

(** The server that listens on a port. *)
Definition owner (w : World) (port : N) : option nat :=
  snd <$> List.find (λ s, (s.1 =? port)%N) (sockets w).

(** [HTTPServer(app)]: a new object, which listens on nothing yet. *)
Definition new (w : World) : nat * World :=
  (created w, {| created := S (created w); sockets := sockets w |}).

(** [server.listen(port)] binds the port; the operating system refuses
    (OSError, address already in use) when a server listens on it. *)
Definition listen (server : nat) (port : N) (w : World) : result World :=
  match owner w port with
  | Some _ => Raise OtherError
  | None => Ok {| created := created w;
                  sockets := (port, server) :: sockets w |}
  end.

(** [server.stop()] closes the sockets of the server, if it has any. *)
Definition stop (server : nat) (w : World) : World :=
  {| created := created w;
     sockets := List.filter (λ s, negb (s.2 =? server)) (sockets w) |}.

End HTTPServer.

Module TileServer.

(** [self.server]; [self.app], the application with the route, is set
    once by [__init__] and only read. *)
Record t : Type := Build { server : option nat }.

Definition __init__ : t := {| server := None |}.

(** [start]: the new HTTP server is stored in [self.server] before it is
    asked to listen, so that it stays there when [listen] raises. *)
Definition start (self : t) (w : HTTPServer.World)
    : t * HTTPServer.World * result unit :=
  let (server, w) := HTTPServer.new w in
  let self := {| server := Some server |} in
  match HTTPServer.listen server 8080%N w with
  | Ok w' => (self, w', Ok tt)
  | Raise e => (self, w, Raise e)
  end.

(** [stop]: [if self.server: self.server.stop()]. *)
Definition stop (self : t) (w : HTTPServer.World) : HTTPServer.World :=
  match server self with
  | Some s => HTTPServer.stop s w
  | None => w
  end.

End TileServer.

(** ** Vocabulary of the statements *)

(** An array of [n] bands of [h] rows of [w] columns. *)
Definition has_shape {A : Type} (n h w : nat) (c : cube A) : Prop :=
  numpy.shape c = replicate n (replicate h w).

(** A masked array of shape (n, h, w): the mask has the shape of the data. *)
Definition wf_array (n h w : nat) (a : ma.MaskedArray) : Prop :=
  has_shape n h w (ma.data a) ∧ has_shape n h w (ma.mask a).

(** A tile: a masked array of shape (n, h, w) whose bands share one 2-D
    validity mask, as the arrays of image tiles do. *)
Definition wf_tile (n h w : nat) (a : ma.MaskedArray) : Prop :=
  has_shape n h w (ma.data a) ∧
  ∃ g : grid bool, has_shape 1 h w [g] ∧ ma.mask a = replicate n g.

(** Element (b, i, j) of [a] is valid (not masked). *)
Definition valid_at (a : ma.MaskedArray) (b i j : nat) : Prop :=
  numpy.at3 (ma.mask a) b i j = Some false.

(** The value of the last band (the decision band) of [a] at pixel (i, j). *)
Definition decision (a : ma.MaskedArray) (i j : nat) : option Z :=
  last (ma.data a) ≫= (λ g, numpy.at2 g i j).

(** The element-wise condition [pidex] of [feed]: [e] and [d] are the
    decision-band values of the fed array and of the accumulator at the
    pixel, [n] and [m] their mask bits at the element. *)
Definition pidex_at (e d : Z) (n m : bool) : bool :=
  (Z.gtb e d && negb n) || m.






(** No element of [a] is valid. *)
Definition all_masked (a : ma.MaskedArray) : Prop :=
  ∀ b i j x, numpy.at3 (ma.mask a) b i j = Some x → x = true.

(** The tiles fed and the assets recorded when the assets [l] are resolved
    in order. *)
Definition fetched_tiles {AssetId : Type}
    (fetch_tile : AssetId → MosaicReader.FetchResult) (l : list AssetId)
    : list (ImageTile.t Z) :=
  omap (λ a, match fetch_tile a with
             | MosaicReader.Fetched tile => Some tile
             | _ => None
             end) l.

Definition fetched_assets {AssetId : Type}
    (fetch_tile : AssetId → MosaicReader.FetchResult) (l : list AssetId)
    : list AssetId :=
  filter (λ a, MosaicReader.is_fetched (fetch_tile a) = true) l.

(** No pixel of the tile is valid. *)
Definition all_invalid {V : Type} (tile : ImageTile.t V) : Prop :=
  ∀ i j, ImageTile.valid_at tile i j = false.

(** A tile of [n] bands on a grid of [h] rows and [w] columns. *)
Definition tile_shape {V : Type} (n h w : nat) (tile : ImageTile.t V) : Prop :=
  has_shape n h w (ImageTile.bands tile) ∧ has_shape 1 h w [ImageTile.mask tile].

(** The values that the tiles [ts] contribute to band [b] of pixel (i, j):
    those of the tiles that are valid there, in feed order. *)
Definition contributions (ts : list (ImageTile.t Z)) (b i j : nat) : list Z :=
  omap (λ tile, if ImageTile.valid_at tile i j
                then numpy.at3 (ImageTile.bands tile) b i j
                else None) ts.

Definition Zsum (vs : list Z) : Z := foldr Z.add 0%Z vs.

(** The arithmetic mean of [vs]. *)
Definition mean (vs : list Z) : Q :=
  (inject_Z (Zsum vs) / inject_Z (Z.of_nat (length vs)))%Q.

(** Number of valid elements of the accumulator, and the elements that are
    valid in it; there is none before the first [feed]. *)
Definition coverage (s : CustomFourthBandH.t) : nat :=
  match CustomFourthBandH.mosaic s with
  | Some m => ma.count m
  | None => 0
  end.

Definition covered (s : CustomFourthBandH.t) (b i j : nat) : Prop :=
  ∃ m, CustomFourthBandH.mosaic s = Some m ∧ valid_at m b i j.



(** Feeding [array] after [arrays] succeeds and loses no coverage. *)
Definition keeps_coverage (arrays : list ma.MaskedArray) (array : ma.MaskedArray)
    : Prop :=
  ∃ s s',
    CustomFourthBandH.feeds CustomFourthBandH.init arrays = Ok s ∧
    CustomFourthBandH.feed s array = Ok s' ∧
    coverage s ≤ coverage s' ∧
    ∀ b i j, covered s b i j → covered s' b i j.

(** The same for a built-in policy in state [st]. *)
Definition policy_keeps_coverage (p : Policy.t) (st : Policy.state p)
    (tile : ImageTile.t Z) : Prop :=
  ImageTile.coverage (Policy.result p st)
    ≤ ImageTile.coverage (Policy.result p (Policy.feed p st tile)) ∧
  ∀ i j, ImageTile.valid_at (Policy.result p st) i j = true →
         ImageTile.valid_at (Policy.result p (Policy.feed p st tile)) i j = true.

(** ** Sample inputs *)

(** Two tiles of two bands on a 1 x 2 grid; the second band is the
    decision band.  The second tile is masked at pixel (0, 1). *)
Definition sample_1 : ma.MaskedArray :=
  {| ma.data := [[[1; 2]]; [[5; 5]]]%Z;
     ma.mask := [[[false; false]]; [[false; false]]] |}.

Definition sample_2 : ma.MaskedArray :=
  {| ma.data := [[[3; 4]]; [[7; 9]]]%Z;
     ma.mask := [[[false; true]]; [[false; true]]] |}.

(** A tile of that shape without a valid pixel. *)
Definition sample_masked : ma.MaskedArray :=
  {| ma.data := [[[0; 0]]; [[0; 0]]]%Z;
     ma.mask := [[[true; true]]; [[true; true]]] |}.

(** The scenario of section 8: three single-band 4 x 4 tiles, A all 10
    and B all 20, both valid everywhere, and C without a valid pixel. *)
Definition tile_A : ImageTile.t Z :=
  {| ImageTile.bands := [replicate 4 (replicate 4 10%Z)];
     ImageTile.mask := replicate 4 (replicate 4 true) |}.

Definition tile_B : ImageTile.t Z :=
  {| ImageTile.bands := [replicate 4 (replicate 4 20%Z)];
     ImageTile.mask := replicate 4 (replicate 4 true) |}.

Definition tile_C : ImageTile.t Z :=
  {| ImageTile.bands := [replicate 4 (replicate 4 0%Z)];
     ImageTile.mask := replicate 4 (replicate 4 false) |}.

Definition scenario_fetch (asset : string) : MosaicReader.FetchResult :=
  if String.eqb asset "A" then MosaicReader.Fetched tile_A
  else if String.eqb asset "B" then MosaicReader.Fetched tile_B
  else if String.eqb asset "C" then MosaicReader.Fetched tile_C
  else if String.eqb asset "D" then MosaicReader.OutsideBounds
  else MosaicReader.FetchError.

(** The accumulator [m] stands for the arrays [l] fed so far: its valid
    elements are those valid in one of them, with the value of one that is
    valid there. *)
Definition stands_for (l : list ma.MaskedArray) (m : ma.MaskedArray) : Prop :=
  ∀ b i j,
    (valid_at m b i j ↔ ∃ k t, l !! k = Some t ∧ valid_at t b i j) ∧
    (valid_at m b i j →
       ∃ k t, l !! k = Some t ∧ valid_at t b i j ∧
              numpy.at3 (ma.data m) b i j = numpy.at3 (ma.data t) b i j).


(** Every character of [s] is in the class. *)
Fixpoint all_in (class : ascii → bool) (s : string) : bool :=
  match s with
  | EmptyString => true
  | String c s' => class c && all_in class s'
  end.

(** A non-empty string of decimal digits; of word characters. *)
Definition digits (s : string) : Prop :=
  s ≠ EmptyString ∧ all_in routes.is_digit s = true.

Definition word (s : string) : Prop :=
  s ≠ EmptyString ∧ all_in routes.is_word s = true.

(** The class stops at [rest]: at the end of the string or at a character
    outside the class. *)
Definition stops (class : ascii → bool) (rest : string) : Prop :=
  match rest with
  | EmptyString => True
  | String c _ => class c = false
  end.

(** Every listening socket belongs to a server that has been created. *)
Definition wf_world (w : HTTPServer.World) : Prop :=
  Forall (λ s, s.2 < HTTPServer.created w) (HTTPServer.sockets w).

(** * Properties *)

(** ** Lookups in element-wise results *)

Lemma lookup_zip_with3 {A B C D : Type} (f : A → B → C → D) l1 l2 l3 i :
  zip_with3 f l1 l2 l3 !! i =
    a ← l1 !! i; b ← l2 !! i; c ← l3 !! i; Some (f a b c).
Proof.
  revert l2 l3 i.
  induction l1 as [|a l1 IH]; intros [|b l2] [|c l3] [|i]; simpl; try done.
  all: repeat (match goal with |- context [?l !! ?k] => destruct (l !! k); simpl end);
    done.
Qed.

Lemma length_zip_with3 {A B C D : Type} (f : A → B → C → D) l1 l2 l3 :
  length l1 = length l2 → length l1 = length l3 →
  length (zip_with3 f l1 l2 l3) = length l1.
Proof.
  revert l2 l3.
  induction l1 as [|a l1 IH]; intros [|b l2] [|c l3]; simpl; try done.
  intros H1 H2. injection H1 as H1. injection H2 as H2. f_equal. by apply IH.
Qed.

Lemma at2_zip_with3 {A B C D : Type} (f : A → B → C → D) (c : grid A) (x : grid B) (y : grid C) i j :
  numpy.at2 (zip_with3 (zip_with3 f) c x y) i j =
    p ← numpy.at2 c i j; u ← numpy.at2 x i j; v ← numpy.at2 y i j; Some (f p u v).
Proof.
  unfold numpy.at2. rewrite lookup_zip_with3.
  destruct (c !! i) as [cr|]; simpl; [|done].
  destruct (x !! i) as [xr|]; simpl; [|by destruct (cr !! j)].
  destruct (y !! i) as [yr|]; simpl.
  - by rewrite lookup_zip_with3.
  - destruct (cr !! j); simpl; [|done]. by destruct (xr !! j).
Qed.

Lemma at3_zip_with3 {A B C D : Type} (f : A → B → C → D) (c : cube A) (x : cube B) (y : cube C) b i j :
  numpy.at3 (zip_with3 (zip_with3 (zip_with3 f)) c x y) b i j =
    p ← numpy.at3 c b i j; u ← numpy.at3 x b i j; v ← numpy.at3 y b i j; Some (f p u v).
Proof.
  unfold numpy.at3. rewrite lookup_zip_with3.
  destruct (c !! b) as [cr|]; simpl; [|done].
  destruct (x !! b) as [xr|]; simpl; [|by destruct (numpy.at2 cr i j)].
  destruct (y !! b) as [yr|]; simpl.
  - by rewrite at2_zip_with3.
  - destruct (numpy.at2 cr i j); simpl; [|done]. by destruct (numpy.at2 xr i j).
Qed.

Lemma at2_zip_with {A B C : Type} (f : A → B → C) (x : grid A) (y : grid B) i j :
  numpy.at2 (zip_with (zip_with f) x y) i j =
    u ← numpy.at2 x i j; v ← numpy.at2 y i j; Some (f u v).
Proof.
  unfold numpy.at2. rewrite lookup_zip_with.
  destruct (x !! i) as [xr|]; simpl; [|done].
  destruct (y !! i) as [yr|]; simpl; [|by destruct (xr !! j)].
  by rewrite lookup_zip_with.
Qed.

Lemma at3_zip_with {A B C : Type} (f : A → B → C) (x : cube A) (y : cube B) b i j :
  numpy.at3 (zip_with (zip_with (zip_with f)) x y) b i j =
    u ← numpy.at3 x b i j; v ← numpy.at3 y b i j; Some (f u v).
Proof.
  unfold numpy.at3. rewrite lookup_zip_with.
  destruct (x !! b) as [xr|]; simpl; [|done].
  destruct (y !! b) as [yr|]; simpl; [|by destruct (numpy.at2 xr i j)].
  by rewrite at2_zip_with.
Qed.

Lemma at3_invert (m : cube bool) b i j :
  numpy.at3 (numpy.invert m) b i j = negb <$> numpy.at3 m b i j.
Proof.
  unfold numpy.invert, numpy.at3, numpy.at2.
  rewrite list_lookup_fmap. destruct (m !! b) as [g|]; simpl; [|done].
  rewrite list_lookup_fmap. destruct (g !! i) as [r|]; simpl; [|done].
  by rewrite list_lookup_fmap.
Qed.

Lemma at3_bitwise_and (g : grid bool) (m : cube bool) b i j :
  numpy.at3 (numpy.bitwise_and g m) b i j =
    v ← numpy.at3 m b i j; u ← numpy.at2 g i j; Some (u && v).
Proof.
  unfold numpy.bitwise_and, numpy.at3.
  rewrite list_lookup_fmap. destruct (m !! b) as [band|]; simpl; [|done].
  rewrite at2_zip_with.
  destruct (numpy.at2 g i j); simpl; [done|]. by destruct (numpy.at2 band i j).
Qed.

Lemma at3_where {A : Type} (c : cube bool) (x y : cube A) b i j :
  numpy.at3 (numpy.where_ c x y) b i j =
    p ← numpy.at3 c b i j; u ← numpy.at3 x b i j; v ← numpy.at3 y b i j;
    Some (if (p : bool) then u else v).
Proof. apply at3_zip_with3. Qed.

Lemma at3_bitwise_or (x y : cube bool) b i j :
  numpy.at3 (numpy.bitwise_or x y) b i j =
    u ← numpy.at3 x b i j; v ← numpy.at3 y b i j; Some (u || v).
Proof. apply at3_zip_with. Qed.

Lemma at2_greater (x y : grid Z) i j :
  numpy.at2 (numpy.greater x y) i j =
    u ← numpy.at2 x i j; v ← numpy.at2 y i j; Some (Z.gtb u v).
Proof. apply at2_zip_with. Qed.

(** ** Shapes *)

Lemma has_shape_length {A : Type} n h w (c : cube A) :
  has_shape n h w c → length c = n.
Proof.
  unfold has_shape, numpy.shape. intros H.
  apply (f_equal length) in H. by rewrite length_map, length_replicate in H.
Qed.

Lemma has_shape_band {A : Type} n h w (c : cube A) b g :
  has_shape n h w c → c !! b = Some g → map length g = replicate h w.
Proof.
  unfold has_shape, numpy.shape. intros H Hb.
  assert (Hl : map (map length) c !! b = Some (map length g))
    by (change (( (map length) <$> c) !! b = Some (map length g)); by rewrite list_lookup_fmap, Hb).
  rewrite H in Hl. apply lookup_replicate in Hl. by destruct Hl.
Qed.

Lemma has_shape_row {A : Type} n h w (c : cube A) b g i r :
  has_shape n h w c → c !! b = Some g → g !! i = Some r →
  length g = h ∧ length r = w.
Proof.
  intros H Hb Hi. pose proof (has_shape_band _ _ _ _ _ _ H Hb) as Hg.
  split.
  - apply (f_equal length) in Hg. by rewrite length_map, length_replicate in Hg.
  - assert (Hl : (length <$> g) !! i = Some (length r))
      by (by rewrite list_lookup_fmap, Hi).
    change (map length g !! i = Some (length r)) in Hl.
    rewrite Hg in Hl. apply lookup_replicate in Hl. by destruct Hl.
Qed.

Lemma has_shape_at3 {A : Type} n h w (c : cube A) b i j :
  has_shape n h w c → b < n → i < h → j < w → is_Some (numpy.at3 c b i j).
Proof.
  intros H Hb Hi Hj. unfold numpy.at3, numpy.at2.
  pose proof (has_shape_length _ _ _ _ H) as Hn.
  destruct (lookup_lt_is_Some_2 c b) as [g Hg]; [lia|]. rewrite Hg. simpl.
  pose proof (has_shape_band _ _ _ _ _ _ H Hg) as Hgs.
  assert (length g = h) as Hh.
  { apply (f_equal length) in Hgs. by rewrite length_map, length_replicate in Hgs. }
  destruct (lookup_lt_is_Some_2 g i) as [r Hr]; [lia|]. rewrite Hr. simpl.
  destruct (has_shape_row _ _ _ _ _ _ _ _ H Hg Hr) as [_ Hw].
  apply lookup_lt_is_Some_2. lia.
Qed.

Lemma at3_lt {A : Type} n h w (c : cube A) b i j x :
  has_shape n h w c → numpy.at3 c b i j = Some x → b < n ∧ i < h ∧ j < w.
Proof.
  intros H. unfold numpy.at3, numpy.at2.
  destruct (c !! b) as [g|] eqn:Hg; simpl; [|done].
  destruct (g !! i) as [r|] eqn:Hr; simpl; [|done].
  intros Hj. destruct (has_shape_row _ _ _ _ _ _ _ _ H Hg Hr) as [Hh Hw].
  apply lookup_lt_Some in Hg, Hr, Hj.
  rewrite (has_shape_length _ _ _ _ H) in Hg. lia.
Qed.

(** Two arrays of one shape with the same elements are equal. *)
Lemma cube_eq {A : Type} (x y : cube A) :
  numpy.shape x = numpy.shape y →
  (∀ b i j, numpy.at3 x b i j = numpy.at3 y b i j) → x = y.
Proof.
  unfold numpy.shape. intros Hs He.
  apply list_eq. intros b.
  assert (Hb : (map length <$> x) !! b = (map length <$> y) !! b)
    by (change (map (map length) x !! b = map (map length) y !! b); by rewrite Hs).
  rewrite !list_lookup_fmap in Hb.
  destruct (x !! b) as [gx|] eqn:Hx, (y !! b) as [gy|] eqn:Hy; simpl in Hb; try done.
  f_equal. injection Hb as Hb.
  apply list_eq. intros i.
  assert (Hi : (length <$> gx) !! i = (length <$> gy) !! i)
    by (change (map length gx !! i = map length gy !! i); by rewrite Hb).
  rewrite !list_lookup_fmap in Hi.
  destruct (gx !! i) as [rx|] eqn:Hrx, (gy !! i) as [ry|] eqn:Hry; simpl in Hi; try done.
  f_equal. apply list_eq. intros j.
  specialize (He b i j). unfold numpy.at3, numpy.at2 in He.
  by rewrite Hx, Hy in He; simpl in He; rewrite Hrx, Hry in He.
Qed.


Lemma lengths_zip_with {A B C : Type} (f : A → B → C) (x : grid A) (y : grid B) :
  map length x = map length y →
  map length (zip_with (zip_with f) x y) = map length x.
Proof.
  revert y. induction x as [|xr x IH]; intros [|yr y]; simpl; try done.
  intros H. injection H as Hr H. f_equal; [|by apply IH].
  rewrite length_zip_with. lia.
Qed.

Lemma shape_zip_with {A B C : Type} (f : A → B → C) (x : cube A) (y : cube B) :
  numpy.shape x = numpy.shape y →
  numpy.shape (zip_with (zip_with (zip_with f)) x y) = numpy.shape x.
Proof.
  unfold numpy.shape.
  revert y. induction x as [|xg x IH]; intros [|yg y]; simpl; try done.
  intros H. injection H as Hg H. f_equal; [|by apply IH].
  by apply lengths_zip_with.
Qed.

Lemma shape_zip_with3 {A B C D : Type} (f : A → B → C → D)
    (c : cube A) (x : cube B) (y : cube C) :
  numpy.shape c = numpy.shape x → numpy.shape c = numpy.shape y →
  numpy.shape (zip_with3 (zip_with3 (zip_with3 f)) c x y) = numpy.shape c.
Proof.
  unfold numpy.shape. revert x y.
  induction c as [|cg c IH]; intros [|xg x] [|yg y]; simpl; try done.
  intros Hx Hy. injection Hx as Hxg Hx. injection Hy as Hyg Hy.
  f_equal; [|by apply IH].
  clear IH Hx Hy. revert xg yg Hxg Hyg.
  induction cg as [|cr cg IH]; intros [|xr xg] [|yr yg]; simpl; try done.
  intros Hx Hy. injection Hx as Hxr Hx. injection Hy as Hyr Hy.
  f_equal; [|by apply IH].
  by apply length_zip_with3.
Qed.

Lemma shape_invert (m : cube bool) : numpy.shape (numpy.invert m) = numpy.shape m.
Proof.
  unfold numpy.shape, numpy.invert.
  induction m as [|g m IH]; simpl; [done|]. f_equal; [|done].
  clear IH. induction g as [|r g IH]; simpl; [done|].
  f_equal; [|done]. apply length_map.
Qed.

Lemma shape_bitwise_and n h w (g : grid bool) (m : cube bool) :
  map length g = replicate h w → has_shape n h w m →
  has_shape n h w (numpy.bitwise_and g m).
Proof.
  unfold has_shape, numpy.shape, numpy.bitwise_and. intros Hg.
  revert n. induction m as [|band m IH]; intros [|n]; simpl; try done.
  intros H. injection H as Hb H. f_equal; [|by apply IH].
  rewrite lengths_zip_with; congruence.
Qed.

Lemma has_shape_last {A : Type} n h w (c : cube A) :
  has_shape n h w c → 0 < n →
  ∃ g, last c = Some g ∧ c !! pred n = Some g ∧ map length g = replicate h w.
Proof.
  intros H Hn. pose proof (has_shape_length _ _ _ _ H) as Hl.
  destruct (lookup_lt_is_Some_2 c (pred n)) as [g Hg]; [lia|].
  exists g. rewrite last_lookup, Hl. split_and!; try done.
  by eapply has_shape_band.
Qed.

Lemma decision_at3 n h w (a : ma.MaskedArray) i j :
  has_shape n h w (ma.data a) → 0 < n →
  decision a i j = numpy.at3 (ma.data a) (pred n) i j.
Proof.
  intros H Hn. destruct (has_shape_last _ _ _ _ H Hn) as (g & Hl & Hg & _).
  unfold decision, numpy.at3. by rewrite Hl, Hg.
Qed.

(** What one call of [feed] does to an accumulator that already exists:
    element by element, the fed array replaces the accumulator where
    [pidex] holds. *)
Lemma feed_Some n h w (m a : ma.MaskedArray) :
  0 < n → wf_array n h w m → wf_array n h w a →
  ∃ m', CustomFourthBandH.feed {| CustomFourthBandH.mosaic := Some m |} a
          = Ok {| CustomFourthBandH.mosaic := Some m' |} ∧
        wf_array n h w m' ∧
        ∀ b i j ea dm na nm,
          decision a i j = Some ea → decision m i j = Some dm →
          numpy.at3 (ma.mask a) b i j = Some na →
          numpy.at3 (ma.mask m) b i j = Some nm →
          numpy.at3 (ma.data m') b i j
            = (if pidex_at ea dm na nm then numpy.at3 (ma.data a) b i j
               else numpy.at3 (ma.data m) b i j) ∧
          numpy.at3 (ma.mask m') b i j
            = Some (if pidex_at ea dm na nm then na else nm).
Proof.
  intros Hn [Hmd Hmm] [Had Ham].
  destruct (has_shape_last _ _ _ _ Had Hn) as (al & Hal & Hal' & Hals).
  destruct (has_shape_last _ _ _ _ Hmd Hn) as (ml & Hml & Hml' & Hmls).
  unfold CustomFourthBandH.feed. simpl. rewrite Hal, Hml.
  rewrite bool_decide_eq_true_2 by (unfold has_shape in *; congruence).
  set (pidex := numpy.bitwise_or _ _).
  assert (Hp : has_shape n h w pidex).
  { unfold has_shape, pidex, numpy.bitwise_or. rewrite shape_zip_with.
    - apply shape_bitwise_and; [|by unfold has_shape; rewrite shape_invert].
      unfold numpy.greater. rewrite lengths_zip_with; congruence.
    - transitivity (replicate n (replicate h w)); [|done].
      apply shape_bitwise_and; [|by unfold has_shape; rewrite shape_invert].
      unfold numpy.greater. rewrite lengths_zip_with; congruence. }
  eexists. split; [reflexivity|]. split.
  - split; simpl; unfold has_shape, numpy.where_;
      rewrite shape_zip_with3; unfold has_shape in *; congruence.
  - intros b i j ea dm na nm Hea Hdm Hna Hnm. simpl.
    assert (Hpa : numpy.at3 pidex b i j = Some (pidex_at ea dm na nm)).
    { unfold pidex. rewrite at3_bitwise_or, at3_bitwise_and, at3_invert, Hna, Hnm.
      simpl. rewrite at2_greater.
      unfold decision in Hea, Hdm. rewrite Hal in Hea. rewrite Hml in Hdm.
      simpl in Hea, Hdm. by rewrite Hea, Hdm. }
    rewrite !at3_where, Hpa, Hna, Hnm. simpl.
    destruct (at3_lt _ _ _ _ _ _ _ _ Ham Hna) as (Hb & Hi & Hj).
    destruct (has_shape_at3 _ _ _ _ b i j Had Hb Hi Hj) as [u Hu].
    destruct (has_shape_at3 _ _ _ _ b i j Hmd Hb Hi Hj) as [v Hv].
    rewrite Hu, Hv. simpl. by destruct (pidex_at ea dm na nm).
Qed.

(** ** Tiles: one validity bit per pixel *)

Lemma at3_replicate {A : Type} n (g : grid A) b i j :
  b < n → numpy.at3 (replicate n g) b i j = numpy.at2 g i j.
Proof. intros Hb. unfold numpy.at3. by rewrite lookup_replicate_2. Qed.

Lemma wf_tile_array n h w a : wf_tile n h w a → wf_array n h w a.
Proof.
  intros [Hd (g & Hg & Hm)]. split; [done|].
  unfold has_shape, numpy.shape in *. rewrite Hm. simpl in Hg.
  injection Hg as Hg. clear Hm Hd.
  induction n as [|n IH]; simpl; [done|]. by rewrite Hg, IH.
Qed.

Lemma wf_tile_uniform n h w a b b' i j :
  wf_tile n h w a → b < n → b' < n →
  numpy.at3 (ma.mask a) b i j = numpy.at3 (ma.mask a) b' i j.
Proof.
  intros [_ (g & _ & Hm)] Hb Hb'. rewrite Hm. by rewrite !at3_replicate.
Qed.



Lemma has_decision n h w a i j :
  has_shape n h w (ma.data a) → 0 < n → i < h → j < w →
  ∃ v, decision a i j = Some v.
Proof.
  intros H Hn Hi Hj. rewrite (decision_at3 _ _ _ _ _ _ H Hn).
  apply (has_shape_at3 _ _ _ _ _ _ _ H); lia.
Qed.


(** ** The highest-value rule *)





(** ** Feeding arrays of one shape never raises *)

Lemma feed_None (a : ma.MaskedArray) :
  CustomFourthBandH.feed CustomFourthBandH.init a
    = Ok {| CustomFourthBandH.mosaic := Some a |}.
Proof. done. Qed.

Lemma feed_keeps_mosaic (s s' : CustomFourthBandH.t) a :
  CustomFourthBandH.feed s a = Ok s' → is_Some (CustomFourthBandH.mosaic s').
Proof.
  unfold CustomFourthBandH.feed. destruct (CustomFourthBandH.mosaic s) as [m|].
  - destruct (last (ma.data a)), (last (ma.data m)); try done.
    case_bool_decide; [|done]. intros [= <-]. by eexists.
  - intros [= <-]. by eexists.
Qed.

Lemma feeds_keeps_mosaic ts (s s' : CustomFourthBandH.t) :
  CustomFourthBandH.feeds s ts = Ok s' →
  is_Some (CustomFourthBandH.mosaic s) ∨ ts ≠ [] →
  is_Some (CustomFourthBandH.mosaic s').
Proof.
  revert s. induction ts as [|a ts IH]; intros s; simpl.
  - intros [= <-] [H|H]; done.
  - destruct (CustomFourthBandH.feed s a) as [s1|e] eqn:Hfeed; simpl; [|done].
    intros Hfeeds _. apply (IH s1 Hfeeds). left. by eapply feed_keeps_mosaic.
Qed.

Lemma feeds_wf n h w ts m :
  0 < n → Forall (wf_array n h w) ts → wf_array n h w m →
  ∃ m', CustomFourthBandH.feeds {| CustomFourthBandH.mosaic := Some m |} ts
          = Ok {| CustomFourthBandH.mosaic := Some m' |} ∧ wf_array n h w m'.
Proof.
  intros Hn Hts. revert m. induction Hts as [|a ts Ha Hts IH]; intros m Hm.
  - by exists m.
  - destruct (feed_Some n h w m a Hn Hm Ha) as (m1 & Hfeed & Hm1 & _).
    destruct (IH m1 Hm1) as (m' & Hfeeds & Hm').
    exists m'. split; [|done]. simpl. by rewrite Hfeed.
Qed.

Lemma feeds_snoc s ts a :
  CustomFourthBandH.feeds s (ts ++ [a])
    = bind (CustomFourthBandH.feeds s ts) (λ s', CustomFourthBandH.feed s' a).
Proof.
  revert s. induction ts as [|t ts IH]; intros s; simpl.
  - by destruct (CustomFourthBandH.feed s a).
  - destruct (CustomFourthBandH.feed s t) as [s1|e]; simpl; [apply IH|done].
Qed.

(** ** Coverage *)

Lemma count_row_mono (x y : list bool) :
  length x = length y →
  (∀ j, x !! j = Some false → y !! j = Some false) →
  length (filter (λ v, v = false) x) ≤ length (filter (λ v, v = false) y).
Proof.
  revert y. induction x as [|u x IH]; intros [|v y]; simpl; try done.
  intros Hl Hp. injection Hl as Hl.
  assert (IH' := IH y Hl (λ j, Hp (S j))).
  specialize (Hp 0). simpl in Hp.
  rewrite !filter_cons. destruct u, v; repeat case_decide; simpl; try done; try lia.
  by specialize (Hp eq_refl).
Qed.

Lemma count_mono (x y : ma.MaskedArray) :
  numpy.shape (ma.mask x) = numpy.shape (ma.mask y) →
  (∀ b i j, valid_at x b i j → valid_at y b i j) →
  ma.count x ≤ ma.count y.
Proof.
  unfold ma.count, valid_at, numpy.shape.
  generalize (ma.mask x) (ma.mask y). clear x y. intros x.
  induction x as [|gx x IH]; intros [|gy y]; simpl; try done.
  intros Hs Hp. injection Hs as Hg Hs.
  assert (IH' := IH y Hs (λ b, Hp (S b))).
  specialize (Hp 0). unfold numpy.at3 in Hp. simpl in Hp.
  enough (sum_list (map (λ row, length (filter (λ v, v = false) row)) gx)
          ≤ sum_list (map (λ row, length (filter (λ v, v = false) row)) gy)) by lia.
  clear IH IH' Hs. revert gy Hg Hp.
  induction gx as [|rx gx IH]; intros [|ry gy]; simpl; try done.
  intros Hg Hp. injection Hg as Hr Hg.
  assert (IH' := IH gy Hg (λ i, Hp (S i))).
  specialize (Hp 0). unfold numpy.at2 in Hp. simpl in Hp.
  pose proof (count_row_mono rx ry Hr Hp). lia.
Qed.

(** One call of [feed] never masks an element that was valid. *)
Lemma feed_keeps_valid n h w (m a : ma.MaskedArray) :
  0 < n → wf_array n h w m → wf_array n h w a →
  ∃ m', CustomFourthBandH.feed {| CustomFourthBandH.mosaic := Some m |} a
          = Ok {| CustomFourthBandH.mosaic := Some m' |} ∧
        wf_array n h w m' ∧
        (∀ b i j, valid_at m b i j → valid_at m' b i j) ∧
        ma.count m ≤ ma.count m'.
Proof.
  intros Hn Hm Ha.
  destruct (feed_Some n h w m a Hn Hm Ha) as (m' & Hfeed & Hm' & Hat).
  assert (Hv : ∀ b i j, valid_at m b i j → valid_at m' b i j).
  { intros b i j Hv. unfold valid_at in *.
    destruct (at3_lt _ _ _ _ _ _ _ _ (proj2 Hm) Hv) as (Hb & Hi & Hj).
    destruct (has_decision n h w a i j (proj1 Ha) Hn Hi Hj) as [ea Hea].
    destruct (has_decision n h w m i j (proj1 Hm) Hn Hi Hj) as [dm Hdm].
    destruct (has_shape_at3 _ _ _ _ b i j (proj2 Ha) Hb Hi Hj) as [na Hna].
    destruct (Hat b i j ea dm na false Hea Hdm Hna Hv) as [_ ->].
    unfold pidex_at. rewrite orb_false_r.
    destruct (Z.gtb ea dm); simpl; [|done]. by destruct na. }
  exists m'. split_and!; try done.
  apply count_mono; [|done].
  destruct Hm as [_ Hm], Hm' as [_ Hm']. unfold has_shape in *. congruence.
Qed.

(** ** Feeding an array without valid elements *)

Lemma at3_None {A : Type} n h w (c : cube A) b i j :
  has_shape n h w c → ¬ (b < n ∧ i < h ∧ j < w) → numpy.at3 c b i j = None.
Proof.
  intros H Hn. destruct (numpy.at3 c b i j) eqn:Hx; [|done].
  apply (at3_lt _ _ _ _ _ _ _ _ H) in Hx. lia.
Qed.

Lemma at3_shape_eq {A B : Type} n h w (x : cube A) (y : cube B) b i j :
  has_shape n h w x → has_shape n h w y →
  numpy.at3 x b i j = None → numpy.at3 y b i j = None.
Proof.
  intros Hx Hy Hnone. destruct (decide (b < n ∧ i < h ∧ j < w)) as [(?&?&?)|Hn].
  - destruct (has_shape_at3 _ _ _ _ b i j Hx) as [? ?]; congruence.
  - by eapply at3_None.
Qed.

Lemma masked_array_eq (x y : ma.MaskedArray) :
  ma.data x = ma.data y → ma.mask x = ma.mask y → x = y.
Proof. destruct x, y; simpl; congruence. Qed.

(** Two arrays of shape (n, h, w) that agree on every element are equal. *)
Lemma wf_array_ext n h w (x y : ma.MaskedArray) :
  wf_array n h w x → wf_array n h w y →
  (∀ b i j, b < n → i < h → j < w →
     numpy.at3 (ma.data x) b i j = numpy.at3 (ma.data y) b i j ∧
     numpy.at3 (ma.mask x) b i j = numpy.at3 (ma.mask y) b i j) →
  x = y.
Proof.
  intros [Hxd Hxm] [Hyd Hym] Hel.
  apply masked_array_eq; apply cube_eq;
    try (unfold has_shape in *; congruence);
    intros b i j;
    (destruct (decide (b < n ∧ i < h ∧ j < w)) as [(?&?&?)|Hout];
     [by apply Hel|]).
  - by rewrite (at3_None n h w _ b i j Hxd Hout), (at3_None n h w _ b i j Hyd Hout).
  - by rewrite (at3_None n h w _ b i j Hxm Hout), (at3_None n h w _ b i j Hym Hout).
Qed.

(** With an accumulator in place, an array without valid elements leaves
    the mask as it is, and the data wherever the accumulator is valid. *)
Lemma feed_all_masked n h w (m a : ma.MaskedArray) :
  0 < n → wf_array n h w m → wf_array n h w a → all_masked a →
  ∃ m', CustomFourthBandH.feed {| CustomFourthBandH.mosaic := Some m |} a
          = Ok {| CustomFourthBandH.mosaic := Some m' |} ∧
        wf_array n h w m' ∧
        ma.mask m' = ma.mask m ∧
        ∀ b i j, valid_at m b i j →
          numpy.at3 (ma.data m') b i j = numpy.at3 (ma.data m) b i j.
Proof.
  intros Hn Hm Ha Hall.
  destruct (feed_Some n h w m a Hn Hm Ha) as (m' & Hfeed & Hm' & Hat).
  assert (Hel : ∀ b i j nm, numpy.at3 (ma.mask m) b i j = Some nm →
            ∃ ea dm, decision a i j = Some ea ∧ decision m i j = Some dm ∧
                     numpy.at3 (ma.mask a) b i j = Some true).
  { intros b i j nm Hnm.
    destruct (at3_lt _ _ _ _ _ _ _ _ (proj2 Hm) Hnm) as (Hb & Hi & Hj).
    destruct (has_decision n h w a i j (proj1 Ha) Hn Hi Hj) as [ea Hea].
    destruct (has_decision n h w m i j (proj1 Hm) Hn Hi Hj) as [dm Hdm].
    destruct (has_shape_at3 _ _ _ _ b i j (proj2 Ha) Hb Hi Hj) as [na Hna].
    exists ea, dm. split_and!; try done. by rewrite Hna, (Hall _ _ _ _ Hna). }
  exists m'. split_and!; try done.
  - apply cube_eq.
    + destruct Hm as [_ Hm], Hm' as [_ Hm']. unfold has_shape in *. congruence.
    + intros b i j. destruct (numpy.at3 (ma.mask m) b i j) as [nm|] eqn:Hnm.
      * destruct (Hel b i j nm Hnm) as (ea & dm & Hea & Hdm & Hna).
        destruct (Hat b i j ea dm true nm Hea Hdm Hna Hnm) as [_ ->].
        unfold pidex_at. rewrite andb_false_r. simpl. by destruct nm.
      * by eapply at3_shape_eq; [exact (proj2 Hm)|exact (proj2 Hm')|].
  - intros b i j Hv. unfold valid_at in Hv.
    destruct (Hel b i j false Hv) as (ea & dm & Hea & Hdm & Hna).
    destruct (Hat b i j ea dm true false Hea Hdm Hna Hv) as [-> _].
    unfold pidex_at. by rewrite andb_false_r.
Qed.

(** Whatever is fed next, the outcome is the same as if the array without
    valid elements had never been fed. *)
Lemma feed_all_masked_then n h w (m a t : ma.MaskedArray) :
  0 < n → wf_tile n h w m → wf_array n h w a → all_masked a →
  wf_array n h w t →
  ∃ m', CustomFourthBandH.feed {| CustomFourthBandH.mosaic := Some m |} a
          = Ok {| CustomFourthBandH.mosaic := Some m' |} ∧
        CustomFourthBandH.feed {| CustomFourthBandH.mosaic := Some m' |} t
          = CustomFourthBandH.feed {| CustomFourthBandH.mosaic := Some m |} t.
Proof.
  intros Hn Hmt Ha Hall Ht.
  pose proof (wf_tile_array _ _ _ _ Hmt) as Hm.
  destruct (feed_all_masked n h w m a Hn Hm Ha Hall) as (m' & Hfeed & Hm' & Hmask & Hdata).
  exists m'. split; [done|].
  destruct (feed_Some n h w m t Hn Hm Ht) as (r & Hr & Hrwf & Hrat).
  destruct (feed_Some n h w m' t Hn Hm' Ht) as (r' & Hr' & Hrwf' & Hrat').
  rewrite Hr, Hr'. do 2 f_equal. f_equal.
  apply (wf_array_ext n h w); try done.
  intros b i j Hb Hi Hj.
  {
    destruct (has_decision n h w t i j (proj1 Ht) Hn Hi Hj) as [et Het].
    destruct (has_decision n h w m i j (proj1 Hm) Hn Hi Hj) as [dm Hdm].
    destruct (has_decision n h w m' i j (proj1 Hm') Hn Hi Hj) as [dm' Hdm'].
    destruct (has_shape_at3 _ _ _ _ b i j (proj2 Ht) Hb Hi Hj) as [nt Hnt].
    destruct (has_shape_at3 _ _ _ _ b i j (proj2 Hm) Hb Hi Hj) as [nm Hnm].
    assert (Hnm' : numpy.at3 (ma.mask m') b i j = Some nm) by (by rewrite Hmask).
    destruct (Hrat b i j et dm nt nm Het Hdm Hnt Hnm) as [Hd Hk].
    destruct (Hrat' b i j et dm' nt nm Het Hdm' Hnt Hnm') as [Hd' Hk'].
    rewrite Hd, Hk, Hd', Hk'. destruct nm.
    - unfold pidex_at. by rewrite !orb_true_r.
    - (* the accumulator is valid here, hence in its decision band too *)
      assert (Hvl : valid_at m (pred n) i j).
      { unfold valid_at. by rewrite (wf_tile_uniform n h w m (pred n) b i j Hmt) by lia. }
      assert (dm' = dm) as ->.
      { rewrite (decision_at3 _ _ _ _ _ _ (proj1 Hm') Hn) in Hdm'.
        rewrite (decision_at3 _ _ _ _ _ _ (proj1 Hm) Hn) in Hdm.
        rewrite (Hdata _ _ _ Hvl) in Hdm'. congruence. }
      destruct (pidex_at et dm nt false); [done|].
      split; [|done]. by apply Hdata. }
Qed.

(** As the first array fed, it becomes the accumulator, and the next array
    replaces it whole. *)
Lemma feed_after_all_masked n h w (a t : ma.MaskedArray) :
  0 < n → wf_array n h w a → all_masked a → wf_array n h w t →
  CustomFourthBandH.feed {| CustomFourthBandH.mosaic := Some a |} t
    = Ok {| CustomFourthBandH.mosaic := Some t |}.
Proof.
  intros Hn Ha Hall Ht.
  destruct (feed_Some n h w a t Hn Ha Ht) as (r & Hr & Hrwf & Hrat).
  rewrite Hr. do 2 f_equal. f_equal.
  apply (wf_array_ext n h w); try done.
  intros b i j Hb Hi Hj.
  {
    destruct (has_decision n h w t i j (proj1 Ht) Hn Hi Hj) as [et Het].
    destruct (has_decision n h w a i j (proj1 Ha) Hn Hi Hj) as [da Hda].
    destruct (has_shape_at3 _ _ _ _ b i j (proj2 Ht) Hb Hi Hj) as [nt Hnt].
    destruct (has_shape_at3 _ _ _ _ b i j (proj2 Ha) Hb Hi Hj) as [na Hna].
    pose proof (Hall _ _ _ _ Hna) as ->.
    destruct (Hrat b i j et da nt true Het Hda Hnt Hna) as [Hd Hk].
    rewrite Hd, Hk. unfold pidex_at. by rewrite orb_true_r. }
Qed.

(** ** The orchestration *)

Section Orchestration.
Context {AssetId : Type}.
Variable fetch_tile : AssetId → MosaicReader.FetchResult.
Variable sel : PixelSelector.t.

Lemma concat_batches_upto (fuel k : nat) (l : list AssetId) :
  1 ≤ k → length l ≤ fuel →
  concat (MosaicReader.batches_upto fuel k l) = l.
Proof.
  intros Hk. revert l. induction fuel as [|fuel IH]; intros l Hl.
  - destruct l; [done|simpl in Hl; lia].
  - destruct l as [|a l]; [done|].
    change (take k (a :: l) ++ concat (MosaicReader.batches_upto fuel k (drop k (a :: l)))
            = a :: l).
    rewrite IH; [apply take_drop|].
    rewrite length_drop. simpl in *. lia.
Qed.

Lemma concat_batches (k : nat) (l : list AssetId) :
  1 ≤ k → concat (MosaicReader.batches k l) = l.
Proof. intros Hk. by apply concat_batches_upto. Qed.

Lemma process_batch_app acc (l1 l2 : list AssetId) :
  MosaicReader.process_batch fetch_tile sel acc (l1 ++ l2)
  = MosaicReader.process_batch fetch_tile sel
      (MosaicReader.process_batch fetch_tile sel acc l1) l2.
Proof. unfold MosaicReader.process_batch. by rewrite map_app, foldl_app. Qed.

Lemma process_batch_spec acc (l : list AssetId) :
  MosaicReader.process_batch fetch_tile sel acc l
  = (foldl (PixelSelector.feed sel) acc.1 (fetched_tiles fetch_tile l),
     acc.2 ++ fetched_assets fetch_tile l).
Proof.
  revert acc. induction l as [|a l IH]; intros [st used].
  - simpl. by rewrite app_nil_r.
  - change (MosaicReader.process_batch fetch_tile sel (st, used) (a :: l))
      with (MosaicReader.process_batch fetch_tile sel
              (MosaicReader.resolve sel (st, used) (a, fetch_tile a)) l).
    rewrite IH. unfold MosaicReader.resolve, fetched_tiles, fetched_assets.
    rewrite filter_cons. simpl.
    destruct (fetch_tile a); simpl; try done.
    by rewrite <- app_assoc.
Qed.

(** The batches processed form a prefix of the sequence, and processing
    stops before the end only when the selector reports completion. *)
Lemma run_prefix acc (bs : list (list AssetId)) :
  ∃ n, MosaicReader.run fetch_tile sel acc bs
         = MosaicReader.process_batch fetch_tile sel acc (concat (take n bs)) ∧
       (take n bs = bs ∨
        PixelSelector.is_done sel (MosaicReader.run fetch_tile sel acc bs).1 = true).
Proof.
  revert acc. induction bs as [|b bs IH]; intros acc.
  - exists 0. by split; [|left].
  - simpl.
    destruct (PixelSelector.is_done sel
                (MosaicReader.process_batch fetch_tile sel acc b).1) eqn:Hd.
    + exists 1. simpl. rewrite take_0. simpl. rewrite app_nil_r. by split; [|right].
    + destruct (IH (MosaicReader.process_batch fetch_tile sel acc b)) as (n & Hrun & Hstop).
      exists (S n). simpl. rewrite process_batch_app. split; [done|].
      destruct Hstop as [Ht|Hdone]; [left; by rewrite Ht|by right].
Qed.

Lemma run_never_done acc (bs : list (list AssetId)) :
  (∀ st, PixelSelector.is_done sel st = false) →
  MosaicReader.run fetch_tile sel acc bs
  = MosaicReader.process_batch fetch_tile sel acc (concat bs).
Proof.
  intros Hnever. revert acc. induction bs as [|b bs IH]; intros acc; [done|].
  simpl. by rewrite Hnever, IH, process_batch_app.
Qed.

Lemma foldl_feed_done st (ts : list (ImageTile.t Z)) :
  (∀ s tile, PixelSelector.is_done sel s = true → PixelSelector.feed sel s tile = s) →
  PixelSelector.is_done sel st = true →
  foldl (PixelSelector.feed sel) st ts = st.
Proof.
  intros Hsound Hd. induction ts as [|t ts IH]; [done|].
  simpl. by rewrite (Hsound _ _ Hd).
Qed.

Lemma run_sound acc (bs : list (list AssetId)) :
  (∀ s tile, PixelSelector.is_done sel s = true → PixelSelector.feed sel s tile = s) →
  (MosaicReader.run fetch_tile sel acc bs).1
  = (MosaicReader.process_batch fetch_tile sel acc (concat bs)).1.
Proof.
  intros Hsound. revert acc. induction bs as [|b bs IH]; intros acc; [done|].
  simpl. rewrite process_batch_app.
  destruct (PixelSelector.is_done sel
              (MosaicReader.process_batch fetch_tile sel acc b).1) eqn:Hd.
  - rewrite (process_batch_spec _ (concat bs)). simpl.
    by rewrite foldl_feed_done.
  - apply IH.
Qed.

End Orchestration.

(** ** The built-in policies *)

Lemma emit_acc0 p n : Policy.emit p (Policy.acc0 p n) = None.
Proof. by destruct p. Qed.

Lemma emit_step_mono p a vs :
  is_Some (Policy.emit p a) → is_Some (Policy.emit p (Policy.step p a vs)).
Proof.
  destruct p; simpl.
  - destruct a; simpl; [done|]. by intros [? ?].
  - destruct a as [old|]; simpl; [|by intros [? ?]].
    intros _. by destruct (Z.ltb _ _).
  - destruct a as [old|]; simpl; [|by intros [? ?]].
    intros _. by destruct (Z.ltb _ _).
  - done.
  - done.
  - done.
Qed.

Lemma accs_feed_lookup p st tile i j :
  numpy.at2 (Policy.accs (Policy.feed p st tile)) i j
  = (λ a, Policy.absorb p a (ImageTile.pixel tile i j))
    <$> numpy.at2 (Policy.accs st) i j.
Proof.
  unfold numpy.at2, Policy.feed. simpl.
  rewrite list_lookup_imap. destruct (Policy.accs st !! i) as [row|]; simpl; [|done].
  by rewrite list_lookup_imap.
Qed.

Lemma imap_same {A : Type} (f : nat → A → A) (l : list A) :
  (∀ i x, l !! i = Some x → f i x = x) → imap f l = l.
Proof.
  intros H. transitivity (imap (const id) l); [by apply imap_ext|].
  rewrite imap_const. apply list_fmap_id.
Qed.

Lemma feed_all_invalid p st tile :
  all_invalid tile → Policy.feed p st tile = st.
Proof.
  intros Hall. destruct st as [n accs]. unfold Policy.feed. simpl. f_equal.
  apply imap_same. intros i row _. apply imap_same. intros j a _.
  unfold ImageTile.pixel. by rewrite Hall.
Qed.

Lemma result_mask_at p st i j :
  numpy.at2 (ImageTile.mask (Policy.result p st)) i j
  = Policy.pixel_done p <$> numpy.at2 (Policy.accs st) i j.
Proof.
  unfold numpy.at2, Policy.result. simpl.
  rewrite list_lookup_fmap. destruct (Policy.accs st !! i) as [row|]; simpl; [|done].
  by rewrite list_lookup_fmap.
Qed.

Lemma result_mask_fresh p n h w :
  ImageTile.mask (Policy.result p (Policy.fresh p n h w))
  = replicate h (replicate w false).
Proof.
  unfold Policy.result, Policy.fresh. simpl.
  assert (Policy.pixel_done p (Policy.acc0 p n) = false) as Hf.
  { unfold Policy.pixel_done. rewrite emit_acc0.
    apply bool_decide_eq_false_2. by intros [? ?]. }
  rewrite <- Hf.
  change (fmap (M:=list) (fmap (M:=list) (Policy.pixel_done p))
            (replicate h (replicate w (Policy.acc0 p n)))
          = replicate h (replicate w (Policy.pixel_done p (Policy.acc0 p n)))).
  by rewrite !fmap_replicate.
Qed.

(** Once First reports completion, feeding changes nothing. *)
Lemma is_done_sound p st tile :
  Policy.is_done p st = true → Policy.feed p st tile = st.
Proof.
  destruct p; simpl; try done.
  intros Hd. destruct st as [n accs]. unfold Policy.feed. simpl in *. f_equal.
  apply imap_same. intros i row Hrow. apply imap_same. intros j a Ha.
  destruct (ImageTile.pixel tile i j); [|done].
  rewrite forallb_forall in Hd.
  assert (Hr : forallb (Policy.pixel_done Policy.First) row = true).
  { apply Hd. apply list_elem_of_In. by eapply list_elem_of_lookup_2. }
  rewrite forallb_forall in Hr.
  assert (Hp : Policy.pixel_done Policy.First a = true).
  { apply Hr. apply list_elem_of_In. by eapply list_elem_of_lookup_2. }
  unfold Policy.pixel_done in Hp. apply bool_decide_eq_true in Hp.
  destruct a; [done|]. simpl in Hp. by destruct Hp.
Qed.

(** ** Coverage of the built-in policies *)

Lemma coverage_row_mono (x y : list bool) :
  length x = length y →
  (∀ j, x !! j = Some true → y !! j = Some true) →
  length (filter (λ v, v = true) x) ≤ length (filter (λ v, v = true) y).
Proof.
  revert y. induction x as [|u x IH]; intros [|v y]; simpl; try done.
  intros Hl Hp. injection Hl as Hl.
  assert (IH' := IH y Hl (λ j, Hp (S j))).
  specialize (Hp 0). simpl in Hp.
  rewrite !filter_cons. destruct u, v; repeat case_decide; simpl; try done; try lia.
  by specialize (Hp eq_refl).
Qed.

Lemma coverage_mono {V : Type} (x y : ImageTile.t V) :
  map length (ImageTile.mask x) = map length (ImageTile.mask y) →
  (∀ i j, numpy.at2 (ImageTile.mask x) i j = Some true →
          numpy.at2 (ImageTile.mask y) i j = Some true) →
  ImageTile.coverage x ≤ ImageTile.coverage y.
Proof.
  unfold ImageTile.coverage.
  generalize (ImageTile.mask x) (ImageTile.mask y). clear x y. intros gx.
  induction gx as [|rx gx IH]; intros [|ry gy]; simpl; try done.
  intros Hg Hp. injection Hg as Hr Hg.
  assert (IH' := IH gy Hg (λ i, Hp (S i))).
  specialize (Hp 0). unfold numpy.at2 in Hp. simpl in Hp.
  pose proof (coverage_row_mono rx ry Hr Hp). lia.
Qed.

Lemma lengths_map {A B : Type} (f : A → B) (g : grid A) :
  map length (map (map f) g) = map length g.
Proof.
  induction g as [|row g IH]; simpl; [done|]. by rewrite length_map, IH.
Qed.

Lemma feed_keeps_grid p st tile :
  map length (Policy.accs (Policy.feed p st tile)) = map length (Policy.accs st).
Proof.
  unfold Policy.feed. simpl. generalize (Policy.accs st). intros g.
  apply list_eq. intros i.
  change ((length <$> imap (λ i row, imap (λ j a,
             Policy.absorb p a (ImageTile.pixel tile i j)) row) g) !! i
          = (length <$> g) !! i).
  rewrite !list_lookup_fmap, list_lookup_imap.
  destruct (g !! i); simpl; [|done]. by rewrite length_imap.
Qed.

Lemma policy_coverage_mono p st tile :
  (∀ i j, ImageTile.valid_at (Policy.result p st) i j = true →
          ImageTile.valid_at (Policy.result p (Policy.feed p st tile)) i j = true) ∧
  ImageTile.coverage (Policy.result p st)
    ≤ ImageTile.coverage (Policy.result p (Policy.feed p st tile)).
Proof.
  assert (Hat : ∀ i j,
    numpy.at2 (ImageTile.mask (Policy.result p st)) i j = Some true →
    numpy.at2 (ImageTile.mask (Policy.result p (Policy.feed p st tile))) i j = Some true).
  { intros i j. rewrite !result_mask_at, accs_feed_lookup.
    destruct (numpy.at2 (Policy.accs st) i j) as [a|]; simpl; [|done].
    intros [= Hd]. f_equal.
    destruct (ImageTile.pixel tile i j); [|done].
    unfold Policy.pixel_done in *. apply bool_decide_eq_true in Hd.
    apply bool_decide_eq_true. by apply emit_step_mono. }
  split.
  - intros i j. unfold ImageTile.valid_at. intros Hv.
    destruct (numpy.at2 (ImageTile.mask (Policy.result p st)) i j) as [[]|] eqn:Hx;
      try done.
    by rewrite (Hat i j Hx).
  - apply coverage_mono; [|done].
    unfold Policy.result. cbn [ImageTile.mask].
    by rewrite !lengths_map, feed_keeps_grid.
Qed.

(** ** The Mean policy *)

Lemma pixel_invalid {V : Type} (tile : ImageTile.t V) i j :
  ImageTile.valid_at tile i j = false → ImageTile.pixel tile i j = None.
Proof. unfold ImageTile.pixel. by intros ->. Qed.

Lemma pixel_valid_values {V : Type} n h w (tile : ImageTile.t V) i j :
  tile_shape n h w tile → i < h → j < w →
  ImageTile.valid_at tile i j = true →
  ∃ vs, ImageTile.pixel tile i j = Some vs ∧ length vs = n ∧
        ∀ b, b < n → vs !! b = numpy.at3 (ImageTile.bands tile) b i j.
Proof.
  intros [Hb _] Hi Hj Hv. unfold ImageTile.pixel. rewrite Hv.
  destruct (mapM_is_Some_2 (λ band : grid V, numpy.at2 band i j) (ImageTile.bands tile))
    as [vs Hvs].
  { apply Forall_forall. intros g Hg. apply list_elem_of_lookup in Hg as [b Hg].
    pose proof (lookup_lt_Some _ _ _ Hg) as Hlt.
    rewrite (has_shape_length _ _ _ _ Hb) in Hlt.
    destruct (has_shape_at3 _ _ _ _ b i j Hb Hlt Hi Hj) as [x Hx].
    unfold numpy.at3 in Hx. rewrite Hg in Hx. simpl in Hx. by exists x. }
  exists vs. split; [done|].
  apply mapM_Some_1 in Hvs. split.
  - rewrite <- (Forall2_length _ _ _ Hvs). by eapply has_shape_length.
  - intros b Hlt.
    destruct (lookup_lt_is_Some_2 (ImageTile.bands tile) b) as [g Hg].
    { by rewrite (has_shape_length _ _ _ _ Hb). }
    destruct (Forall2_lookup_l _ _ _ _ _ Hvs Hg) as (y & Hy & Hgy).
    unfold numpy.at3. rewrite Hg. simpl. congruence.
Qed.

Lemma accs_foldl_feed p st ts i j :
  numpy.at2 (Policy.accs (foldl (Policy.feed p) st ts)) i j
  = (λ a, foldl (λ a tile, Policy.absorb p a (ImageTile.pixel tile i j)) a ts)
    <$> numpy.at2 (Policy.accs st) i j.
Proof.
  revert st. induction ts as [|t ts IH]; intros st; simpl.
  - by destruct (numpy.at2 (Policy.accs st) i j).
  - rewrite IH, accs_feed_lookup.
    by destruct (numpy.at2 (Policy.accs st) i j).
Qed.

Lemma accs_fresh p n h w i j :
  i < h → j < w →
  numpy.at2 (Policy.accs (Policy.fresh p n h w)) i j = Some (Policy.acc0 p n).
Proof.
  intros Hi Hj. unfold numpy.at2, Policy.fresh. simpl.
  rewrite lookup_replicate_2 by done. simpl. by rewrite lookup_replicate_2.
Qed.

Lemma count_foldl_feed p st ts :
  Policy.count (foldl (Policy.feed p) st ts) = Policy.count st.
Proof.
  revert st. induction ts as [|t ts IH]; intros st; simpl; [done|]. by rewrite IH.
Qed.

Lemma mean_fold n h w i j (ts : list (ImageTile.t Z)) :
  Forall (tile_shape n h w) ts → i < h → j < w →
  ∀ (sums0 : list Z) (c0 : nat), length sums0 = n →
    ∃ sums c,
      foldl (λ a tile, Policy.absorb Policy.Mean a (ImageTile.pixel tile i j))
            (sums0, c0) ts = (sums, c) ∧
      length sums = n ∧
      ∀ b s0, sums0 !! b = Some s0 →
        sums !! b = Some (s0 + Zsum (contributions ts b i j))%Z ∧
        c = c0 + length (contributions ts b i j).
Proof.
  intros Hts Hi Hj. induction Hts as [|t ts Ht Hts IH]; intros sums0 c0 Hlen.
  - exists sums0, c0. split_and!; try done. intros b s0 Hb. split; [|simpl; lia].
    rewrite Hb. simpl. f_equal. lia.
  - cbn [foldl contributions omap list_omap].
    destruct (ImageTile.valid_at t i j) eqn:Hv.
    + destruct (pixel_valid_values n h w t i j Ht Hi Hj Hv) as (vs & Hpix & Hvl & Hvb).
      rewrite Hpix. cbn [Policy.absorb Policy.step fst snd].
      destruct (IH (zip_with Z.add sums0 vs) (S c0)) as (sums & c & Hfold & IHl & IHb).
      { rewrite length_zip_with. lia. }
      exists sums, c. split_and!; try done. intros b s0 Hb.
      pose proof (lookup_lt_Some _ _ _ Hb) as Hlt. rewrite Hlen in Hlt.
      destruct (lookup_lt_is_Some_2 vs b) as [v Hvv]; [lia|].
      destruct (IHb b (s0 + v)%Z) as [IH1 IH2].
      { rewrite lookup_zip_with, Hb, Hvv. done. }
      rewrite <- (Hvb b Hlt), Hvv. cbn [Zsum foldr length].
      fold (contributions ts b i j). fold (Zsum (contributions ts b i j)).
      split; [rewrite IH1; f_equal; lia|lia].
    + rewrite (pixel_invalid _ _ _ Hv). cbn [Policy.absorb].
      fold (contributions ts). by apply IH.
Qed.

Lemma result_band_at p st b i j :
  b < Policy.out_bands p (Policy.count st) →
  numpy.at3 (ImageTile.bands (Policy.result p st)) b i j
  = (λ a, default 0%Q (Policy.emit p a ≫= (λ vs, vs !! b)))
    <$> numpy.at2 (Policy.accs st) i j.
Proof.
  intros Hb. unfold numpy.at3, Policy.result. simpl.
  rewrite list_lookup_fmap, lookup_seq_lt by done. simpl.
  unfold numpy.at2. rewrite list_lookup_fmap.
  destruct (Policy.accs st !! i) as [row|]; simpl; [|done].
  by rewrite list_lookup_fmap.
Qed.

Lemma valid_at_result p st i j :
  ImageTile.valid_at (Policy.result p st) i j
  = default false (Policy.pixel_done p <$> numpy.at2 (Policy.accs st) i j).
Proof. unfold ImageTile.valid_at. by rewrite result_mask_at. Qed.

(** The Mean policy keeps, at every pixel, the arithmetic mean of the
    values of the tiles valid there, and leaves the pixel invalid when
    there is none. *)
Lemma mean_policy_pixel n h w (ts : list (ImageTile.t Z)) b i j :
  Forall (tile_shape n h w) ts → b < n → i < h → j < w →
  let out := Policy.result Policy.Mean
               (foldl (Policy.feed Policy.Mean) (Policy.fresh Policy.Mean n h w) ts) in
  match contributions ts b i j with
  | [] => ImageTile.valid_at out i j = false
  | _ :: _ =>
      ImageTile.valid_at out i j = true ∧
      ∃ q, numpy.at3 (ImageTile.bands out) b i j = Some q ∧
           (q == mean (contributions ts b i j))%Q
  end.
Proof.
  intros Hts Hb Hi Hj out.
  pose proof (accs_foldl_feed Policy.Mean (Policy.fresh Policy.Mean n h w) ts i j) as Hacc.
  rewrite accs_fresh in Hacc by done. cbn [fmap option_fmap option_map Policy.acc0] in Hacc.
  destruct (mean_fold n h w i j ts Hts Hi Hj (replicate n 0%Z) 0)
    as (sums & c & Hfold & Hlen & Hsum).
  { apply length_replicate. }
  destruct (Hsum b 0%Z) as [Hs Hc]; [by apply lookup_replicate_2|].
  rewrite Hfold in Hacc.
  assert (Hvalid : ImageTile.valid_at out i j
                   = bool_decide (contributions ts b i j ≠ [])).
  { unfold out. rewrite valid_at_result, Hacc. simpl.
    unfold Policy.pixel_done. simpl. rewrite Hc. simpl.
    by destruct (contributions ts b i j). }
  destruct (contributions ts b i j) as [|v vs] eqn:Hcontrib.
  - by rewrite Hvalid.
  - split; [by rewrite Hvalid|].
    unfold out. rewrite result_band_at.
    2:{ rewrite count_foldl_feed. simpl. done. }
    rewrite Hacc. simpl. rewrite Hc. simpl.
    rewrite list_lookup_fmap, Hs. simpl.
    eexists. split; [reflexivity|].
    unfold Policy.ratio, mean. rewrite Qred_correct. simpl length.
    by rewrite Z.add_0_l.
Qed.

(** ** The sample inputs are well formed *)

Lemma sample_1_wf : wf_tile 2 1 2 sample_1.
Proof. split; [done|]. by exists [[false; false]]. Qed.


Lemma sample_masked_wf : wf_tile 2 1 2 sample_masked.
Proof. split; [done|]. by exists [[true; true]]. Qed.

Lemma sample_1_array : wf_array 2 1 2 sample_1.
Proof. by split. Qed.

Lemma sample_2_array : wf_array 2 1 2 sample_2.
Proof. by split. Qed.

Lemma tile_A_shape : tile_shape 1 4 4 tile_A.
Proof. by split. Qed.

Lemma tile_B_shape : tile_shape 1 4 4 tile_B.
Proof. by split. Qed.

Lemma tile_C_shape : tile_shape 1 4 4 tile_C.
Proof. by split. Qed.

Lemma sample_masked_array : wf_array 2 1 2 sample_masked.
Proof. by split. Qed.

Lemma sample_masked_all_masked : all_masked sample_masked.
Proof.
  intros b i j x. unfold numpy.at3, numpy.at2. simpl.
  destruct b as [|[|b]]; simpl; try done;
    destruct i as [|i]; simpl; try done;
    destruct j as [|[|j]]; simpl; try done; by intros [= <-].
Qed.

Lemma tile_C_all_invalid : all_invalid tile_C.
Proof.
  intros i j. unfold ImageTile.valid_at, numpy.at2. simpl.
  destruct i as [|[|[|[|i]]]]; simpl; try done;
    by destruct j as [|[|[|[|j]]]].
Qed.

Lemma count_all_masked (a : ma.MaskedArray) : all_masked a → ma.count a = 0.
Proof.
  unfold all_masked, ma.count. generalize (ma.mask a). clear a. intros c.
  induction c as [|g c IH]; intros Hall; simpl; [done|].
  rewrite IH by (intros b i j x; apply (Hall (S b) i j x)).
  enough (sum_list (map (λ row, length (filter (λ x, x = false) row)) g) = 0)
    as -> by done.
  assert (Hg : ∀ i j x, numpy.at2 g i j = Some x → x = true)
    by (intros i j x; apply (Hall 0 i j x)).
  clear IH Hall. induction g as [|r g IH]; simpl; [done|].
  rewrite IH by (intros i j x; apply (Hg (S i) j x)).
  enough (filter (λ x, x = false) r = []) as -> by done.
  assert (Hr : ∀ j x, r !! j = Some x → x = true)
    by (intros j x; apply (Hg 0 j x)).
  clear IH Hg. induction r as [|x r IH]; [done|].
  rewrite filter_cons. case_decide as Hx.
  - specialize (Hr 0 x eq_refl). congruence.
  - apply IH. intros j y. apply (Hr (S j) y).
Qed.

(** ** Batches *)

Lemma batches_upto_elem {AssetId : Type} (fuel k : nat) (l batch : list AssetId) a :
  batch ∈ MosaicReader.batches_upto fuel k l → a ∈ batch → a ∈ l.
Proof.
  revert l. induction fuel as [|fuel IH]; intros l; simpl.
  - by intros ?%elem_of_nil.
  - destruct l as [|x l]; [by intros ?%elem_of_nil|].
    intros [->|Hin]%elem_of_cons Ha.
    + by eapply subseteq_take.
    + eapply subseteq_drop. by eapply IH.
Qed.

Lemma process_batch_skipped {AssetId : Type} fetch_tile sel acc (batch : list AssetId) :
  (∀ a, a ∈ batch → MosaicReader.is_fetched (fetch_tile a) = false) →
  MosaicReader.process_batch fetch_tile sel acc batch = acc.
Proof.
  revert acc. induction batch as [|a batch IH]; intros acc Hall; [done|].
  change (MosaicReader.process_batch fetch_tile sel acc (a :: batch))
    with (MosaicReader.process_batch fetch_tile sel
            (MosaicReader.resolve sel acc (a, fetch_tile a)) batch).
  rewrite IH by (intros x Hx; apply Hall; by right).
  unfold MosaicReader.resolve. simpl.
  specialize (Hall a (list_elem_of_here _ _)).
  by destruct (fetch_tile a).
Qed.

Lemma run_skipped {AssetId : Type} fetch_tile sel acc (bs : list (list AssetId)) :
  (∀ batch a, batch ∈ bs → a ∈ batch →
     MosaicReader.is_fetched (fetch_tile a) = false) →
  MosaicReader.run fetch_tile sel acc bs = acc.
Proof.
  induction bs as [|b bs IH]; intros Hall; [done|].
  simpl. rewrite process_batch_skipped by (intros a Ha; eapply Hall; [by left|done]).
  destruct (PixelSelector.is_done sel acc.1); [done|].
  apply IH. intros batch a Hb Ha. eapply Hall; [by right|done].
Qed.

Lemma concat_take_prefix {A : Type} n (bs : list (list A)) :
  concat (take n bs) `prefix_of` concat bs.
Proof.
  exists (concat (drop n bs)). by rewrite <- concat_app, take_drop.
Qed.

(** ** Dropping the decision band *)

Lemma shape_removelast {A : Type} n h w (c : cube A) :
  has_shape n h w c → has_shape (pred n) h w (removelast c).
Proof.
  unfold has_shape, numpy.shape. intros H.
  rewrite removelast_firstn_len.
  change (map (map length) (take (pred (length c)) c))
    with (map length <$> take (pred (length c)) c).
  rewrite fmap_take.
  change (map length <$> c) with (map (map length) c). rewrite H.
  rewrite take_replicate. f_equal.
  apply (f_equal length) in H. rewrite length_map, length_replicate in H. lia.
Qed.

Lemma removelast_snoc {A : Type} (c : list A) :
  c ≠ [] → ∃ x, last c = Some x ∧ c = removelast c ++ [x].
Proof.
  induction c as [|x c IH]; [done|]. intros _.
  destruct c as [|y c]; [by exists x|].
  destruct IH as (z & Hz & Hc); [done|].
  exists z. split; [done|]. simpl in *. by rewrite <- Hc.
Qed.

(** * The claims *)



Example feeds_samples :
  CustomFourthBandH.feeds CustomFourthBandH.init [sample_1; sample_2]
  = Ok {| CustomFourthBandH.mosaic :=
            Some {| ma.data := [[[3; 2]]; [[7; 5]]]%Z;
                    ma.mask := [[[false; false]]; [[false; false]]] |} |}.
Proof. reflexivity. Qed.

Example feeds_samples_tie :
  CustomFourthBandH.feeds CustomFourthBandH.init
    [sample_1; {| ma.data := [[[8; 8]]; [[5; 4]]]%Z;
                  ma.mask := [[[false; false]]; [[false; false]]] |}]
  = Ok {| CustomFourthBandH.mosaic := Some sample_1 |}.
Proof. reflexivity. Qed.

(** C2.  Coverage monotonicity.  For [CustomFourthBandH] fed arrays of one
    shape, and for each built-in policy (First, Highest, Lowest, Mean,
    Stdev, Count), one more [feed] never lowers the number of valid
    elements of the running accumulator, and no element (pixel) that was
    valid becomes invalid. *)
Theorem C2_coverage_monotone (n h w : nat)
    (arrays : list ma.MaskedArray) (array : ma.MaskedArray)
    (p : Policy.t) (tiles : list (ImageTile.t Z)) (tile : ImageTile.t Z) :
  0 < n → Forall (wf_array n h w) arrays → wf_array n h w array →
  keeps_coverage arrays array ∧
  policy_keeps_coverage p (foldl (Policy.feed p) (Policy.fresh p n h w) tiles) tile.
Proof.
  intros Hn Harrays Harray. split.
  - destruct arrays as [|a0 arrays].
    + exists CustomFourthBandH.init, {| CustomFourthBandH.mosaic := Some array |}.
      split_and!; try done.
      * unfold coverage. simpl. lia.
      * intros b i j (m & Hm & _). done.
    + inversion Harrays as [|? ? Ha0 Harrays']; subst.
      destruct (feeds_wf n h w arrays a0 Hn Harrays' Ha0) as (m & Hfeeds & Hm).
      destruct (feed_keeps_valid n h w m array Hn Hm Harray)
        as (m' & Hfeed & _ & Hvalid & Hcount).
      exists {| CustomFourthBandH.mosaic := Some m |},
             {| CustomFourthBandH.mosaic := Some m' |}.
      split_and!; try done.
      intros b i j (m0 & Hm0 & Hv). simpl in Hm0. injection Hm0 as <-.
      exists m'. split; [done|]. by apply Hvalid.
  - destruct (policy_coverage_mono p
                (foldl (Policy.feed p) (Policy.fresh p n h w) tiles) tile) as [Hv Hc].
    by split.
Qed.

Lemma C2_coverage_monotone_witness :
  0 < 2 ∧ Forall (wf_array 2 1 2) [sample_2] ∧ wf_array 2 1 2 sample_1 ∧
  keeps_coverage [sample_2] sample_1 ∧
  policy_keeps_coverage Policy.Mean
    (foldl (Policy.feed Policy.Mean) (Policy.fresh Policy.Mean 2 1 2) []) tile_C.
Proof.
  assert (H0 : 0 < 2) by lia.
  assert (Hts : Forall (wf_array 2 1 2) [sample_2]).
  { constructor; [exact sample_2_array|]. constructor. }
  split; [exact H0|]. split; [exact Hts|]. split; [exact sample_1_array|].
  exact (C2_coverage_monotone 2 1 2 [sample_2] sample_1
           Policy.Mean [] tile_C H0 Hts sample_1_array).
Defined.

(** As stated, C3 fails for [CustomFourthBandH]: before the first [feed]
    its [data] property yields no composite at all. *)
Lemma C3_data_before_feed_counterexample :
  ¬ ∃ composite : ma.MaskedArray,
      CustomFourthBandH.data CustomFourthBandH.init = Some composite ∧
      all_masked composite.
Proof. intros (composite & Hdata & _). discriminate Hdata. Qed.

(** C3, amended.  Reading the result of a selector that was never fed does
    not fail.  For [CustomFourthBandH] the [data] property then yields
    [None], and it yields a composite exactly when at least one array was
    fed; each built-in policy yields a composite of the tile grid whose
    mask is all-invalid. *)
Theorem C3_result_without_feed :
  CustomFourthBandH.data CustomFourthBandH.init = None ∧
  (∀ arrays s,
     CustomFourthBandH.feeds CustomFourthBandH.init arrays = Ok s →
     (CustomFourthBandH.data s = None ↔ arrays = [])) ∧
  (∀ p n h w,
     ImageTile.mask (Policy.result p (Policy.fresh p n h w))
       = replicate h (replicate w false) ∧
     ImageTile.coverage (Policy.result p (Policy.fresh p n h w)) = 0).
Proof.
  split_and!.
  - done.
  - intros arrays s Hfeeds. split.
    + intros Hnone. destruct arrays as [|a arrays]; [done|].
      destruct (feeds_keeps_mosaic _ _ _ Hfeeds) as [m Hm]; [by right|].
      unfold CustomFourthBandH.data in Hnone. by rewrite Hm in Hnone.
    + intros ->. simpl in Hfeeds. by injection Hfeeds as <-.
  - intros p n h w. pose proof (result_mask_fresh p n h w) as Hmask.
    split; [exact Hmask|]. unfold ImageTile.coverage. rewrite Hmask.
    clear. induction h as [|h IH]; simpl; [done|]. rewrite IH.
    enough (filter (λ x, x = true) (replicate w false) = []) as -> by done.
    clear IH. induction w as [|w IHw]; [done|].
    cbn [replicate]. rewrite filter_cons. case_decide; [done|]. exact IHw.
Qed.

Lemma C3_result_without_feed_witness :
  CustomFourthBandH.feeds CustomFourthBandH.init [sample_1]
    = Ok {| CustomFourthBandH.mosaic := Some sample_1 |} ∧
  (CustomFourthBandH.data {| CustomFourthBandH.mosaic := Some sample_1 |} = None
   ↔ [sample_1] = []).
Proof.
  split; [reflexivity|].
  exact (proj1 (proj2 C3_result_without_feed) [sample_1]
           {| CustomFourthBandH.mosaic := Some sample_1 |} eq_refl).
Defined.

(** As stated, C4 fails for [CustomFourthBandH] when the array without
    valid elements is the first one fed: it becomes the accumulator, and
    the [data] property, which yielded nothing, now yields a composite. *)
Lemma C4_first_feed_counterexample :
  all_masked sample_masked ∧
  ¬ (∀ s', CustomFourthBandH.feed CustomFourthBandH.init sample_masked = Ok s' →
           CustomFourthBandH.data s' = CustomFourthBandH.data CustomFourthBandH.init).
Proof.
  split; [exact sample_masked_all_masked|].
  intros H. specialize (H _ eq_refl). discriminate H.
Qed.

(** C4, amended.  Feeding a tile without a valid pixel never raises and
    contributes nothing.  With an accumulator in place, [CustomFourthBandH]
    keeps its mask and its values at valid elements.  As the first array
    fed, such a tile becomes the accumulator: the [data] property goes from
    [None] to a composite without a valid element.  In both cases every
    later [feed] gives what it would have given had the tile never been
    fed.  Each built-in policy ignores such a tile altogether. *)
Theorem C4_feed_without_valid_pixel (n h w : nat) (m a t : ma.MaskedArray)
    (p : Policy.t) (st : Policy.state p) (tile : ImageTile.t Z) :
  0 < n → wf_tile n h w m → wf_array n h w a → all_masked a →
  wf_array n h w t → all_invalid tile →
  (∃ m',
     CustomFourthBandH.feed {| CustomFourthBandH.mosaic := Some m |} a
       = Ok {| CustomFourthBandH.mosaic := Some m' |} ∧
     ma.mask m' = ma.mask m ∧
     (∀ b i j, valid_at m b i j →
        numpy.at3 (ma.data m') b i j = numpy.at3 (ma.data m) b i j) ∧
     CustomFourthBandH.feed {| CustomFourthBandH.mosaic := Some m' |} t
       = CustomFourthBandH.feed {| CustomFourthBandH.mosaic := Some m |} t) ∧
  (CustomFourthBandH.feed CustomFourthBandH.init a
     = Ok {| CustomFourthBandH.mosaic := Some a |} ∧
   CustomFourthBandH.data {| CustomFourthBandH.mosaic := Some a |}
     = Some (ma.drop_last a) ∧
   coverage {| CustomFourthBandH.mosaic := Some a |} = 0 ∧
   CustomFourthBandH.feed {| CustomFourthBandH.mosaic := Some a |} t
     = CustomFourthBandH.feed CustomFourthBandH.init t) ∧
  Policy.feed p st tile = st.
Proof.
  intros Hn Hm Ha Hall Ht Htile. split_and!.
  - destruct (feed_all_masked n h w m a Hn (wf_tile_array _ _ _ _ Hm) Ha Hall)
      as (m' & Hfeed & _ & Hmask & Hdata).
    destruct (feed_all_masked_then n h w m a t Hn Hm Ha Hall Ht) as (m'' & Hfeed' & Hthen).
    rewrite Hfeed in Hfeed'. injection Hfeed' as <-.
    by exists m'.
  - done.
  - done.
  - unfold coverage. simpl. by apply count_all_masked.
  - by rewrite (feed_after_all_masked n h w a t Hn Ha Hall Ht).
  - by apply feed_all_invalid.
Qed.

Lemma C4_feed_without_valid_pixel_witness :
  0 < 2 ∧ wf_tile 2 1 2 sample_1 ∧ wf_array 2 1 2 sample_masked ∧
  all_masked sample_masked ∧ wf_array 2 1 2 sample_2 ∧ all_invalid tile_C ∧
  Policy.feed Policy.First (Policy.fresh Policy.First 1 4 4) tile_C
    = Policy.fresh Policy.First 1 4 4.
Proof.
  assert (H0 : 0 < 2) by lia.
  split_and!;
    [exact H0|exact sample_1_wf|exact sample_masked_array
    |exact sample_masked_all_masked|exact sample_2_array|exact tile_C_all_invalid|].
  exact (proj2 (proj2 (C4_feed_without_valid_pixel 2 1 2 sample_1 sample_masked sample_2
           Policy.First (Policy.fresh Policy.First 1 4 4) tile_C
           H0 sample_1_wf sample_masked_array sample_masked_all_masked
           sample_2_array tile_C_all_invalid))).
Defined.

Example feed_sample_masked :
  CustomFourthBandH.feeds CustomFourthBandH.init [sample_1; sample_masked; sample_2]
  = CustomFourthBandH.feeds CustomFourthBandH.init [sample_1; sample_2] ∧
  CustomFourthBandH.feeds CustomFourthBandH.init [sample_masked; sample_1]
  = CustomFourthBandH.feeds CustomFourthBandH.init [sample_1].
Proof. split; reflexivity. Qed.

(** C5.  The composite operation never aborts on a failed fetch.  It
    processes a prefix of the asset sequence, the whole sequence unless the
    selector reports completion; [assets_used] lists, in the order of the
    sequence, exactly the processed assets whose fetch succeeded, and these
    are the assets whose tiles were fed to the selector.  An asset whose
    fetch failed or fell outside the tile bounds never appears in it. *)
Theorem C5_assets_used {AssetId : Type}
    (fetch_tile : AssetId → MosaicReader.FetchResult) (sel : PixelSelector.t)
    (assets : list AssetId) (s0 : PixelSelector.state sel) (max_concurrency : nat) :
  1 ≤ max_concurrency →
  ∃ processed,
    processed `prefix_of` assets ∧
    MosaicReader.assets_used
      (MosaicReader.composite fetch_tile sel assets s0 max_concurrency)
      = fetched_assets fetch_tile processed ∧
    MosaicReader.mosaic
      (MosaicReader.composite fetch_tile sel assets s0 max_concurrency)
      = PixelSelector.result sel
          (foldl (PixelSelector.feed sel) s0 (fetched_tiles fetch_tile processed)) ∧
    (processed = assets ∨
     PixelSelector.is_done sel
       (foldl (PixelSelector.feed sel) s0 (fetched_tiles fetch_tile processed))
       = true) ∧
    (∀ a, a ∈ MosaicReader.assets_used
                (MosaicReader.composite fetch_tile sel assets s0 max_concurrency) →
          MosaicReader.is_fetched (fetch_tile a) = true) ∧
    MosaicReader.assets_used
      (MosaicReader.composite fetch_tile sel assets s0 max_concurrency)
      `sublist_of` assets.
Proof.
  intros Hk. unfold MosaicReader.composite. cbn [MosaicReader.mosaic MosaicReader.assets_used].
  destruct (run_prefix fetch_tile sel (s0, []) (MosaicReader.batches max_concurrency assets))
    as (n & Hrun & Hstop).
  set (processed := concat (take n (MosaicReader.batches max_concurrency assets))) in *.
  rewrite process_batch_spec in Hrun. simpl in Hrun.
  assert (Hpre : processed `prefix_of` assets).
  { pose proof (concat_take_prefix n (MosaicReader.batches max_concurrency assets)) as H.
    by rewrite (concat_batches max_concurrency assets Hk) in H. }
  assert (Hend : processed = assets ∨
            PixelSelector.is_done sel
              (MosaicReader.run fetch_tile sel (s0, [])
                 (MosaicReader.batches max_concurrency assets)).1 = true).
  { destruct Hstop as [Hall|Hdone]; [left|by right].
    unfold processed. rewrite Hall. by apply concat_batches. }
  clearbody processed. clear Hstop.
  exists processed. rewrite Hrun in *. simpl in *. split_and!; try done.
  - intros a Ha. unfold fetched_assets in Ha.
    by apply list_elem_of_filter in Ha as [Ha _].
  - etransitivity; [apply sublist_filter|].
    destruct Hpre as [rest ->]. by apply sublist_inserts_r.
Qed.

Lemma C5_assets_used_witness :
  1 ≤ 2 ∧
  MosaicReader.assets_used
    (MosaicReader.composite scenario_fetch (PixelSelector.builtin Policy.Mean)
       ["A"; "X"; "D"; "Y"; "B"]%string (Policy.fresh Policy.Mean 1 4 4) 2)
  `sublist_of` ["A"; "X"; "D"; "Y"; "B"]%string.
Proof.
  assert (H1 : 1 ≤ 2) by lia.
  split; [exact H1|].
  destruct (C5_assets_used scenario_fetch (PixelSelector.builtin Policy.Mean)
              ["A"; "X"; "D"; "Y"; "B"]%string (Policy.fresh Policy.Mean 1 4 4) 2 H1)
    as (processed & _ & _ & _ & _ & _ & Hsub).
  exact Hsub.
Defined.

(** The partial-failure scenario of section 8: of five assets the second
    and fourth fail and the third is outside the tile bounds. *)
Example partial_failure :
  MosaicReader.assets_used
    (MosaicReader.composite scenario_fetch (PixelSelector.builtin Policy.Mean)
       ["A"; "X"; "D"; "Y"; "B"]%string (Policy.fresh Policy.Mean 1 4 4) 2)
  = ["A"; "B"]%string.
Proof. reflexivity. Qed.

(** C7.  Empty or fully skipped input is not an error: when the asset
    sequence is empty, or no fetch succeeds, nothing is fed, [assets_used]
    is empty and the mosaic is the result of the fresh selector, whose mask
    is all-invalid. *)
Theorem C7_empty_composite {AssetId : Type}
    (fetch_tile : AssetId → MosaicReader.FetchResult) (p : Policy.t)
    (n h w : nat) (assets : list AssetId) (max_concurrency : nat) :
  (∀ a, a ∈ assets → MosaicReader.is_fetched (fetch_tile a) = false) →
  let r := MosaicReader.composite fetch_tile (PixelSelector.builtin p)
             assets (Policy.fresh p n h w) max_concurrency in
  MosaicReader.assets_used r = [] ∧
  MosaicReader.mosaic r = Policy.result p (Policy.fresh p n h w) ∧
  ImageTile.mask (MosaicReader.mosaic r) = replicate h (replicate w false) ∧
  ∀ i j, ImageTile.valid_at (MosaicReader.mosaic r) i j = false.
Proof.
  intros Hall r. unfold r, MosaicReader.composite.
  rewrite run_skipped.
  2:{ intros batch a Hb Ha. apply Hall. by eapply batches_upto_elem. }
  cbn [MosaicReader.mosaic MosaicReader.assets_used fst snd PixelSelector.result
       PixelSelector.builtin].
  split_and!; try done.
  - apply result_mask_fresh.
  - intros i j. unfold ImageTile.valid_at, numpy.at2.
    rewrite result_mask_fresh.
    destruct (decide (i < h)) as [Hi|Hi].
    + rewrite lookup_replicate_2 by done. simpl.
      destruct (decide (j < w)) as [Hj|Hj].
      * by rewrite lookup_replicate_2.
      * by rewrite (proj1 (lookup_replicate_None _ _ _)) by lia.
    + by rewrite (proj1 (lookup_replicate_None _ _ _)) by lia.
Qed.

Lemma C7_empty_composite_witness :
  (∀ a, a ∈ ["X"; "D"]%string →
        MosaicReader.is_fetched (scenario_fetch a) = false) ∧
  MosaicReader.assets_used
    (MosaicReader.composite scenario_fetch (PixelSelector.builtin Policy.Mean)
       ["X"; "D"]%string (Policy.fresh Policy.Mean 1 4 4) 2) = [] ∧
  MosaicReader.assets_used
    (MosaicReader.composite scenario_fetch (PixelSelector.builtin Policy.Mean)
       [] (Policy.fresh Policy.Mean 1 4 4) 2) = [].
Proof.
  assert (Hskipped : ∀ a, a ∈ ["X"; "D"]%string →
            MosaicReader.is_fetched (scenario_fetch a) = false).
  { intros a Ha. apply elem_of_cons in Ha as [->|Ha]; [reflexivity|].
    apply elem_of_cons in Ha as [->|Ha]; [reflexivity|].
    by apply elem_of_nil in Ha. }
  assert (Hnone : ∀ a : string, a ∈ [] →
            MosaicReader.is_fetched (scenario_fetch a) = false).
  { intros a Ha. by apply elem_of_nil in Ha. }
  split; [exact Hskipped|]. split.
  - exact (proj1 (C7_empty_composite scenario_fetch Policy.Mean 1 4 4
                    ["X"; "D"]%string 2 Hskipped)).
  - exact (proj1 (C7_empty_composite scenario_fetch Policy.Mean 1 4 4 [] 2 Hnone)).
Defined.

(** As stated, C8 fails in its last part: tile C is fetched, so it is fed
    and recorded like the others, and [assets_used] is not [A; B]. *)
Lemma C8_assets_used_counterexample :
  MosaicReader.assets_used
    (MosaicReader.composite scenario_fetch (PixelSelector.builtin Policy.Mean)
       ["A"; "B"; "C"]%string (Policy.fresh Policy.Mean 1 4 4) 1)
  ≠ ["A"; "B"]%string.
Proof. vm_compute. discriminate. Qed.

(** C8, amended.  Under the Mean policy the output at a pixel is the
    arithmetic mean of the values of the tiles valid there (and the pixel
    is invalid when there is none).  In the scenario of tiles A (all 10),
    B (all 20) and C (no valid pixel), the mosaic over [A; B; C] has every
    pixel equal to 15 and a mask that is all true; [assets_used] is
    [A; B; C], since C was fetched and fed, without effect. *)
Theorem C8_mean_policy (n h w : nat) (tiles : list (ImageTile.t Z))
    (b i j max_concurrency : nat) :
  Forall (tile_shape n h w) tiles → b < n → i < h → j < w →
  1 ≤ max_concurrency →
  (let out := Policy.result Policy.Mean
                (foldl (Policy.feed Policy.Mean) (Policy.fresh Policy.Mean n h w)
                       tiles) in
   match contributions tiles b i j with
   | [] => ImageTile.valid_at out i j = false
   | _ :: _ =>
       ImageTile.valid_at out i j = true ∧
       ∃ q, numpy.at3 (ImageTile.bands out) b i j = Some q ∧
            (q == mean (contributions tiles b i j))%Q
   end) ∧
  MosaicReader.composite scenario_fetch (PixelSelector.builtin Policy.Mean)
    ["A"; "B"; "C"]%string (Policy.fresh Policy.Mean 1 4 4) max_concurrency
  = {| MosaicReader.mosaic :=
         {| ImageTile.bands := [replicate 4 (replicate 4 15%Q)];
            ImageTile.mask := replicate 4 (replicate 4 true) |};
       MosaicReader.assets_used := ["A"; "B"; "C"]%string |}.
Proof.
  intros Htiles Hb Hi Hj Hk. split.
  - by apply mean_policy_pixel.
  - unfold MosaicReader.composite.
    rewrite run_never_done by done.
    rewrite (concat_batches max_concurrency _ Hk). reflexivity.
Qed.

Lemma C8_mean_policy_witness :
  Forall (tile_shape 1 4 4) [tile_A; tile_B; tile_C] ∧ 0 < 1 ∧ 2 < 4 ∧ 3 < 4 ∧
  1 ≤ 2 ∧
  contributions [tile_A; tile_B; tile_C] 0 2 3 = [10; 20]%Z ∧
  ∃ q, numpy.at3 (ImageTile.bands
                    (Policy.result Policy.Mean
                       (foldl (Policy.feed Policy.Mean)
                              (Policy.fresh Policy.Mean 1 4 4)
                              [tile_A; tile_B; tile_C]))) 0 2 3 = Some q ∧
       (q == mean [10; 20]%Z)%Q.
Proof.
  assert (Hts : Forall (tile_shape 1 4 4) [tile_A; tile_B; tile_C]).
  { constructor; [exact tile_A_shape|]. constructor; [exact tile_B_shape|].
    constructor; [exact tile_C_shape|]. constructor. }
  assert (H0 : 0 < 1) by lia. assert (H2 : 2 < 4) by lia.
  assert (H3 : 3 < 4) by lia. assert (H1 : 1 ≤ 2) by lia.
  split_and!; [exact Hts|exact H0|exact H2|exact H3|exact H1|reflexivity|].
  exact (proj2 (proj1 (C8_mean_policy 1 4 4 [tile_A; tile_B; tile_C] 0 2 3 2
                         Hts H0 H2 H3 H1))).
Defined.

(** C9.  After a non-empty history of arrays with n >= 2 bands each, the
    composite returned by the [data] property of [CustomFourthBandH] has
    exactly n - 1 bands: the accumulator without its last band, the
    decision band. *)
Theorem C9_data_drops_decision_band (n h w : nat) (arrays : list ma.MaskedArray) :
  2 ≤ n → arrays ≠ [] → Forall (wf_array n h w) arrays →
  ∃ s acc composite,
    CustomFourthBandH.feeds CustomFourthBandH.init arrays = Ok s ∧
    CustomFourthBandH.mosaic s = Some acc ∧
    CustomFourthBandH.data s = Some composite ∧
    wf_array (n - 1) h w composite ∧
    length (ma.data composite) = n - 1 ∧
    ∃ decision_band decision_mask,
      last (ma.data acc) = Some decision_band ∧
      ma.data acc = ma.data composite ++ [decision_band] ∧
      ma.mask acc = ma.mask composite ++ [decision_mask].
Proof.
  intros Hn Hne Harrays. destruct arrays as [|a arrays]; [done|].
  inversion Harrays as [|? ? Ha Harrays']; subst.
  destruct (feeds_wf n h w arrays a) as (acc & Hfeeds & [Hd Hm]); [lia|done|done|].
  exists {| CustomFourthBandH.mosaic := Some acc |}, acc, (ma.drop_last acc).
  split_and!; try done.
  - split; simpl; replace (n - 1) with (pred n) by lia; by apply shape_removelast.
  - simpl. rewrite (has_shape_length _ _ _ _ (shape_removelast _ _ _ _ Hd)). lia.
  - destruct (removelast_snoc (ma.data acc)) as (g & Hg & Hgd).
    { intros Hnil. apply has_shape_length in Hd. rewrite Hnil in Hd. simpl in Hd. lia. }
    destruct (removelast_snoc (ma.mask acc)) as (gm & _ & Hgm).
    { intros Hnil. apply has_shape_length in Hm. rewrite Hnil in Hm. simpl in Hm. lia. }
    by exists g, gm.
Qed.

Lemma C9_data_drops_decision_band_witness :
  2 ≤ 2 ∧ [sample_1; sample_2] ≠ [] ∧
  Forall (wf_array 2 1 2) [sample_1; sample_2] ∧
  ∃ s acc composite,
    CustomFourthBandH.feeds CustomFourthBandH.init [sample_1; sample_2] = Ok s ∧
    CustomFourthBandH.mosaic s = Some acc ∧
    CustomFourthBandH.data s = Some composite ∧
    wf_array (2 - 1) 1 2 composite ∧
    length (ma.data composite) = 2 - 1 ∧
    ∃ decision_band decision_mask,
      last (ma.data acc) = Some decision_band ∧
      ma.data acc = ma.data composite ++ [decision_band] ∧
      ma.mask acc = ma.mask composite ++ [decision_mask].
Proof.
  assert (H2 : 2 ≤ 2) by lia.
  assert (Hne : [sample_1; sample_2] ≠ []) by discriminate.
  assert (Hts : Forall (wf_array 2 1 2) [sample_1; sample_2]).
  { constructor; [exact sample_1_array|]. constructor; [exact sample_2_array|].
    constructor. }
  split; [exact H2|]. split; [exact Hne|]. split; [exact Hts|].
  exact (C9_data_drops_decision_band 2 1 2 [sample_1; sample_2] H2 Hne Hts).
Defined.

Example data_samples :
  bind (CustomFourthBandH.feeds CustomFourthBandH.init [sample_1; sample_2])
       (λ s, Ok (CustomFourthBandH.data s))
  = Ok (Some {| ma.data := [[[3; 2]]]%Z; ma.mask := [[[false; false]]] |}).
Proof. reflexivity. Qed.

(** C10.  In both tile servers, a request whose tile read raises
    [TileOutsideBounds] is answered with status 404 and nothing the
    handler wrote; a response carries bytes written by the handler only
    when the tile was read and rendered, and these bytes are the rendered
    image, with status 200. *)
Theorem C10_outside_bounds_is_404 {ImageData Bytes : Type}
    (tile : nat → nat → nat → result ImageData)
    (tile_tms : string → nat → nat → nat → result ImageData)
    (post_process : ImageData → result ImageData)
    (render : ImageData → result Bytes)
    (self : tornado.RequestHandler Bytes) (tms : string) (z x y : nat) :
  tornado.written self = [] →
  let non_earth :=
    tornado.serve (NonEarthTileHandler.get tile post_process render self z x y) in
  let with_tms :=
    tornado.serve (TmsTileHandler.get tile_tms render self tms z x y) in
  (tile x y z = Raise TileOutsideBounds →
   NonEarthTileHandler._get_tile tile post_process render z x y
     = Raise (HTTPError 404) ∧
   tornado.status non_earth = 404 ∧ tornado.body non_earth = []) ∧
  (tile_tms tms x y z = Raise TileOutsideBounds →
   TmsTileHandler._get_tile tile_tms render tms z x y = Raise (HTTPError 404) ∧
   tornado.status with_tms = 404 ∧ tornado.body with_tms = []) ∧
  (∀ png, png ∈ tornado.body non_earth →
     tornado.status non_earth = 200 ∧
     ∃ data image, tile x y z = Ok data ∧ post_process data = Ok image ∧
                   render image = Ok png) ∧
  (∀ png, png ∈ tornado.body with_tms →
     tornado.status with_tms = 200 ∧
     ∃ img, tile_tms tms x y z = Ok img ∧ render img = Ok png).
Proof.
  intros Hfresh non_earth with_tms. split_and!.
  - intros Hread. unfold non_earth, NonEarthTileHandler.get, NonEarthTileHandler._get_tile.
    rewrite Hread. by split_and!.
  - intros Hread. unfold with_tms, TmsTileHandler.get, TmsTileHandler._get_tile.
    rewrite Hread. by split_and!.
  - intros png. unfold non_earth, NonEarthTileHandler.get, NonEarthTileHandler._get_tile.
    destruct (tile x y z) as [data|e]; simpl.
    + destruct (post_process data) as [image|e] eqn:Hpost; simpl.
      * destruct (render image) as [res|e] eqn:Hrender; simpl.
        -- rewrite Hfresh. simpl. intros ->%list_elem_of_singleton.
           split; [done|]. exists data, image. by split_and!.
        -- destruct e; by intros ?%elem_of_nil.
      * destruct e; by intros ?%elem_of_nil.
    + destruct e; by intros ?%elem_of_nil.
  - intros png. unfold with_tms, TmsTileHandler.get, TmsTileHandler._get_tile.
    destruct (tile_tms tms x y z) as [img|e]; simpl.
    + destruct (render img) as [res|e] eqn:Hrender; simpl.
      * rewrite Hfresh. simpl. intros ->%list_elem_of_singleton.
        split; [done|]. exists img. by split_and!.
      * destruct e; by intros ?%elem_of_nil.
    + destruct e; by intros ?%elem_of_nil.
Qed.

Lemma C10_outside_bounds_is_404_witness :
  tornado.written (tornado.Build (Bytes:=nat) [] []) = [] ∧
  tornado.status
    (tornado.serve
       (NonEarthTileHandler.get (ImageData:=unit)
          (λ x y z, if Nat.ltb x 4 then Ok () else Raise TileOutsideBounds)
          (λ data, Ok data) (λ image, Ok 137)
          (tornado.Build [] []) 3 9 0)) = 404.
Proof.
  split; [reflexivity|].
  exact (proj1 (proj2 (proj1
    (C10_outside_bounds_is_404 (ImageData:=unit) (Bytes:=nat)
       (λ x y z, if Nat.ltb x 4 then Ok () else Raise TileOutsideBounds)
       (λ tms x y z, Raise TileOutsideBounds)
       (λ data, Ok data) (λ image, Ok 137)
       (tornado.Build [] []) "WebMercatorQuad" 3 9 0 eq_refl) eq_refl))).
Defined.

Example served_tile :
  tornado.serve
    (NonEarthTileHandler.get (ImageData:=unit)
       (λ x y z, if Nat.ltb x 4 then Ok () else Raise TileOutsideBounds)
       (λ data, Ok data) (λ image, Ok 137)
       (tornado.Build [] []) 3 2 0)
  = {| tornado.status := 200; tornado.body := [137] |}.
Proof. reflexivity. Qed.

(** * Further properties of the notebooks' code *)

(** ** What the accumulator of CustomFourthBandH holds *)

(** One [feed] masks an element exactly when it is masked on both sides. *)
Lemma feed_mask_and n h w (m a : ma.MaskedArray) :
  0 < n → wf_array n h w m → wf_array n h w a →
  ∃ m', CustomFourthBandH.feed {| CustomFourthBandH.mosaic := Some m |} a
          = Ok {| CustomFourthBandH.mosaic := Some m' |} ∧
        wf_array n h w m' ∧
        (∀ b i j, valid_at m' b i j ↔ valid_at m b i j ∨ valid_at a b i j) ∧
        (∀ b i j, valid_at m' b i j →
           (valid_at m b i j ∧
            numpy.at3 (ma.data m') b i j = numpy.at3 (ma.data m) b i j) ∨
           (valid_at a b i j ∧
            numpy.at3 (ma.data m') b i j = numpy.at3 (ma.data a) b i j)).
Proof.
  intros Hn Hm Ha.
  destruct (feed_Some n h w m a Hn Hm Ha) as (m' & Hfeed & Hm' & Hat).
  assert (Hel : ∀ b i j, b < n → i < h → j < w →
    ∃ ea dm na nm,
      numpy.at3 (ma.mask a) b i j = Some na ∧
      numpy.at3 (ma.mask m) b i j = Some nm ∧
      numpy.at3 (ma.data m') b i j
        = (if pidex_at ea dm na nm then numpy.at3 (ma.data a) b i j
           else numpy.at3 (ma.data m) b i j) ∧
      numpy.at3 (ma.mask m') b i j = Some (if pidex_at ea dm na nm then na else nm)).
  { intros b i j Hb Hi Hj.
    destruct (has_decision n h w a i j (proj1 Ha) Hn Hi Hj) as [ea Hea].
    destruct (has_decision n h w m i j (proj1 Hm) Hn Hi Hj) as [dm Hdm].
    destruct (has_shape_at3 _ _ _ _ b i j (proj2 Ha) Hb Hi Hj) as [na Hna].
    destruct (has_shape_at3 _ _ _ _ b i j (proj2 Hm) Hb Hi Hj) as [nm Hnm].
    exists ea, dm, na, nm. split_and!; try done; by apply Hat. }
  assert (Hrange : ∀ x b i j, wf_array n h w x → valid_at x b i j →
            b < n ∧ i < h ∧ j < w).
  { intros x b i j [_ Hx] Hv. by eapply at3_lt. }
  exists m'. split_and!; try done.
  - intros b i j. split.
    + intros Hv. destruct (Hrange _ _ _ _ Hm' Hv) as (Hb & Hi & Hj).
      destruct (Hel b i j Hb Hi Hj) as (ea & dm & na & nm & Hna & Hnm & _ & Hk).
      unfold valid_at in *. rewrite Hk in Hv. rewrite Hna, Hnm.
      destruct (pidex_at ea dm na nm); [right|left]; congruence.
    + intros [Hv|Hv];
        [destruct (Hrange _ _ _ _ Hm Hv) as (Hb & Hi & Hj)
        |destruct (Hrange _ _ _ _ Ha Hv) as (Hb & Hi & Hj)];
        destruct (Hel b i j Hb Hi Hj) as (ea & dm & na & nm & Hna & Hnm & _ & Hk);
        unfold valid_at in *; rewrite Hk; f_equal.
      * assert (nm = false) as -> by congruence.
        unfold pidex_at. rewrite orb_false_r.
        destruct (Z.gtb ea dm); simpl; [|done]. by destruct na.
      * assert (na = false) as -> by congruence.
        unfold pidex_at. by destruct (Z.gtb ea dm), nm.
  - intros b i j Hv. destruct (Hrange _ _ _ _ Hm' Hv) as (Hb & Hi & Hj).
    destruct (Hel b i j Hb Hi Hj) as (ea & dm & na & nm & Hna & Hnm & Hd & Hk).
    unfold valid_at in *. rewrite Hk in Hv. rewrite Hd, Hna, Hnm.
    destruct (pidex_at ea dm na nm); [right|left]; split; congruence.
Qed.

Lemma lookup_snoc_last {A : Type} (l : list A) (a : A) :
  (l ++ [a]) !! length l = Some a.
Proof. rewrite lookup_app_r by lia. by rewrite Nat.sub_diag. Qed.

Lemma lookup_snoc_inv {A : Type} (l : list A) (a x : A) k :
  (l ++ [a]) !! k = Some x → l !! k = Some x ∨ (k = length l ∧ x = a).
Proof.
  intros Hk. apply lookup_app_Some in Hk as [Hk|[Hge Hk]]; [by left|].
  destruct (k - length l) as [|d] eqn:Hd; simpl in Hk; [|done].
  injection Hk as <-. right. split; [lia|done].
Qed.

Lemma stands_for_first (a : ma.MaskedArray) : stands_for [a] a.
Proof.
  intros b i j. split.
  - split.
    + intros Hv. by exists 0, a.
    + intros (k & t & Hk & Hv). destruct k; simpl in Hk; [|done]. by injection Hk as <-.
  - intros Hv. by exists 0, a.
Qed.

Lemma stands_for_feed n h w l (m a : ma.MaskedArray) :
  0 < n → wf_array n h w m → wf_array n h w a → stands_for l m →
  ∃ m', CustomFourthBandH.feed {| CustomFourthBandH.mosaic := Some m |} a
          = Ok {| CustomFourthBandH.mosaic := Some m' |} ∧
        wf_array n h w m' ∧ stands_for (l ++ [a]) m'.
Proof.
  intros Hn Hm Ha Hinv.
  destruct (feed_mask_and n h w m a Hn Hm Ha) as (m1 & Hfeed & Hm1 & Hmask & Hdata).
  exists m1. split_and!; try done.
  intros b i j. split.
  - rewrite Hmask. split.
    + intros [Hv|Hv].
      * apply (proj1 (Hinv b i j)) in Hv as (k & t & Hk & Hv).
        exists k, t. split; [by apply lookup_app_l_Some|done].
      * exists (length l), a. split; [apply lookup_snoc_last|done].
    + intros (k & t & Hk & Hv).
      apply lookup_snoc_inv in Hk as [Hk|[_ ->]].
      * left. apply (Hinv b i j). by exists k, t.
      * by right.
  - intros Hv. destruct (Hdata b i j Hv) as [[Hvm Hd]|[Hva Hd]].
    + destruct (proj2 (Hinv b i j) Hvm) as (k & t & Hk & Hvt & Hdt).
      exists k, t. split_and!; [by apply lookup_app_l_Some|done|congruence].
    + exists (length l), a. split_and!; [apply lookup_snoc_last|done|done].
Qed.

Lemma stands_for_feeds n h w arrays :
  0 < n → Forall (wf_array n h w) arrays →
  ∀ l m, wf_array n h w m → stands_for l m →
    ∃ acc,
      CustomFourthBandH.feeds {| CustomFourthBandH.mosaic := Some m |} arrays
        = Ok {| CustomFourthBandH.mosaic := Some acc |} ∧
      wf_array n h w acc ∧ stands_for (l ++ arrays) acc.
Proof.
  intros Hn Harrays. induction Harrays as [|a arrays Ha Hrest IH]; intros l m Hm Hinv.
  - exists m. rewrite app_nil_r. by split_and!.
  - destruct (stands_for_feed n h w l m a Hn Hm Ha Hinv) as (m1 & Hfeed & Hm1 & Hinv1).
    destruct (IH (l ++ [a]) m1 Hm1 Hinv1) as (acc & Hfeeds & Hacc & Hinv').
    exists acc. split_and!; [simpl; by rewrite Hfeed|done|].
    by rewrite <- app_assoc in Hinv'.
Qed.

(** X1.  After arrays of one shape were fed, an element of the accumulator
    is valid exactly when it is valid in at least one fed array, and its
    value is then the value of a fed array that is valid there: the
    selector never shows a masked value as valid. *)
Theorem X1_valid_elements_come_from_tiles (n h w : nat) (arrays : list ma.MaskedArray) :
  0 < n → arrays ≠ [] → Forall (wf_array n h w) arrays →
  ∃ acc,
    CustomFourthBandH.feeds CustomFourthBandH.init arrays
      = Ok {| CustomFourthBandH.mosaic := Some acc |} ∧
    ∀ b i j,
      (valid_at acc b i j ↔ ∃ k t, arrays !! k = Some t ∧ valid_at t b i j) ∧
      (valid_at acc b i j →
         ∃ k t, arrays !! k = Some t ∧ valid_at t b i j ∧
                numpy.at3 (ma.data acc) b i j = numpy.at3 (ma.data t) b i j).
Proof.
  intros Hn Hne Harrays. destruct arrays as [|a0 arrays]; [done|].
  inversion Harrays as [|? ? Ha0 Hrest]; subst.
  destruct (stands_for_feeds n h w arrays Hn Hrest [a0] a0 Ha0 (stands_for_first a0))
    as (acc & Hfeeds & _ & Hacc).
  by exists acc.
Qed.

Lemma X1_valid_elements_come_from_tiles_witness :
  0 < 2 ∧ [sample_2; sample_1] ≠ [] ∧
  Forall (wf_array 2 1 2) [sample_2; sample_1] ∧
  ∃ acc,
    CustomFourthBandH.feeds CustomFourthBandH.init [sample_2; sample_1]
      = Ok {| CustomFourthBandH.mosaic := Some acc |} ∧
    ∀ b i j,
      (valid_at acc b i j ↔
         ∃ k t, [sample_2; sample_1] !! k = Some t ∧ valid_at t b i j) ∧
      (valid_at acc b i j →
         ∃ k t, [sample_2; sample_1] !! k = Some t ∧ valid_at t b i j ∧
                numpy.at3 (ma.data acc) b i j = numpy.at3 (ma.data t) b i j).
Proof.
  assert (H0 : 0 < 2) by lia.
  assert (Hne : [sample_2; sample_1] ≠ []) by discriminate.
  assert (Hts : Forall (wf_array 2 1 2) [sample_2; sample_1]).
  { constructor; [exact sample_2_array|]. constructor; [exact sample_1_array|].
    constructor. }
  split; [exact H0|]. split; [exact Hne|]. split; [exact Hts|].
  exact (X1_valid_elements_come_from_tiles 2 1 2 [sample_2; sample_1] H0 Hne Hts).
Defined.

(** ** The decision band is a running maximum *)


(** One [feed], seen at the decision band. *)
Lemma feed_decision n h w (m a : ma.MaskedArray) i j :
  0 < n → wf_array n h w m → wf_array n h w a → i < h → j < w →
  ∃ m' ea dm na nm,
    CustomFourthBandH.feed {| CustomFourthBandH.mosaic := Some m |} a
      = Ok {| CustomFourthBandH.mosaic := Some m' |} ∧
    decision a i j = Some ea ∧ decision m i j = Some dm ∧
    numpy.at3 (ma.mask a) (pred n) i j = Some na ∧
    numpy.at3 (ma.mask m) (pred n) i j = Some nm ∧
    decision m' i j = Some (if pidex_at ea dm na nm then ea else dm) ∧
    numpy.at3 (ma.mask m') (pred n) i j
      = Some (if pidex_at ea dm na nm then na else nm).
Proof.
  intros Hn Hm Ha Hi Hj.
  destruct (feed_Some n h w m a Hn Hm Ha) as (m' & Hfeed & Hm' & Hat).
  destruct (has_decision n h w a i j (proj1 Ha) Hn Hi Hj) as [ea Hea].
  destruct (has_decision n h w m i j (proj1 Hm) Hn Hi Hj) as [dm Hdm].
  destruct (has_shape_at3 _ _ _ _ (pred n) i j (proj2 Ha)) as [na Hna]; try lia.
  destruct (has_shape_at3 _ _ _ _ (pred n) i j (proj2 Hm)) as [nm Hnm]; try lia.
  destruct (Hat (pred n) i j ea dm na nm Hea Hdm Hna Hnm) as [Hd Hk].
  exists m', ea, dm, na, nm. split_and!; try done.
  rewrite (decision_at3 _ _ _ _ _ _ (proj1 Hm') Hn), Hd.
  rewrite <- (decision_at3 _ _ _ _ _ _ (proj1 Ha) Hn).
  rewrite <- (decision_at3 _ _ _ _ _ _ (proj1 Hm) Hn).
  rewrite Hea, Hdm. by destruct (pidex_at ea dm na nm).
Qed.






(** ** The order of the feeds *)





(** ** Feeding an array again *)

(** X4.  Feeding the same array twice in a row gives what feeding it once
    gives, whether it is the first array fed or not. *)
Theorem X4_feed_twice (n h w : nat) (m a : ma.MaskedArray) :
  0 < n → wf_array n h w m → wf_array n h w a →
  (∃ m',
     CustomFourthBandH.feed {| CustomFourthBandH.mosaic := Some m |} a
       = Ok {| CustomFourthBandH.mosaic := Some m' |} ∧
     CustomFourthBandH.feed {| CustomFourthBandH.mosaic := Some m' |} a
       = Ok {| CustomFourthBandH.mosaic := Some m' |}) ∧
  CustomFourthBandH.feeds CustomFourthBandH.init [a; a]
    = CustomFourthBandH.feeds CustomFourthBandH.init [a].
Proof.
  intros Hn Hm Ha.
  assert (Hagain : ∀ x, wf_array n h w x →
    (∀ b i j ea dx na nx,
       decision a i j = Some ea → decision x i j = Some dx →
       numpy.at3 (ma.mask a) b i j = Some na →
       numpy.at3 (ma.mask x) b i j = Some nx →
       pidex_at ea dx na nx = true →
       numpy.at3 (ma.data x) b i j = numpy.at3 (ma.data a) b i j ∧ nx = na) →
    CustomFourthBandH.feed {| CustomFourthBandH.mosaic := Some x |} a
      = Ok {| CustomFourthBandH.mosaic := Some x |}).
  { intros x Hx Hsame.
    destruct (feed_Some n h w x a Hn Hx Ha) as (r & Hr & Hrwf & Hrat).
    rewrite Hr. do 2 f_equal. f_equal.
    apply (wf_array_ext n h w); try done.
    intros b i j Hb Hi Hj.
    destruct (has_decision n h w a i j (proj1 Ha) Hn Hi Hj) as [ea Hea].
    destruct (has_decision n h w x i j (proj1 Hx) Hn Hi Hj) as [dx Hdx].
    destruct (has_shape_at3 _ _ _ _ b i j (proj2 Ha) Hb Hi Hj) as [na Hna].
    destruct (has_shape_at3 _ _ _ _ b i j (proj2 Hx) Hb Hi Hj) as [nx Hnx].
    destruct (Hrat b i j ea dx na nx Hea Hdx Hna Hnx) as [Hd Hk].
    rewrite Hd, Hk, Hnx.
    destruct (pidex_at ea dx na nx) eqn:Hp; [|done].
    destruct (Hsame b i j ea dx na nx Hea Hdx Hna Hnx Hp) as [Hdata ->]. by split. }
  split.
  - destruct (feed_Some n h w m a Hn Hm Ha) as (m' & Hfeed & Hm' & Hat).
    exists m'. split; [done|]. apply Hagain; [done|].
    intros b i j ea dm' na nm' Hea Hdm' Hna Hnm' Hp.
    destruct (at3_lt _ _ _ _ _ _ _ _ (proj2 Ha) Hna) as (Hb & Hi & Hj).
    destruct (has_decision n h w m i j (proj1 Hm) Hn Hi Hj) as [dm Hdm].
    destruct (has_shape_at3 _ _ _ _ b i j (proj2 Hm) Hb Hi Hj) as [nm Hnm].
    destruct (Hat b i j ea dm na nm Hea Hdm Hna Hnm) as [Hd Hk].
    (* the decision band after the first feed *)
    destruct (feed_decision n h w m a i j Hn Hm Ha Hi Hj)
      as (m1 & ea1 & dm1 & nal & nml & Hfeed1 & Hea1 & Hdm1 & Hnal & Hnml & Hdl & _).
    rewrite Hfeed in Hfeed1. injection Hfeed1 as <-.
    assert (ea1 = ea) as -> by congruence. assert (dm1 = dm) as -> by congruence.
    rewrite Hdm' in Hdl. injection Hdl as ->.
    rewrite Hk in Hnm'. injection Hnm' as <-.
    rewrite Hd. clear Hd Hk.
    unfold pidex_at in *.
    destruct (Z.gtb_spec ea dm) as [Hgt|Hle]; simpl in *.
    + destruct na, nm, nal, nml; simpl in *; try done;
        repeat match goal with
               | H : context [Z.gtb ?x ?y] |- _ => destruct (Z.gtb_spec x y); simpl in H
               end; try done; try lia.
    + destruct na, nm, nal, nml; simpl in *; try done;
        repeat match goal with
               | H : context [Z.gtb ?x ?y] |- _ => destruct (Z.gtb_spec x y); simpl in H
               end; try done; try lia.
  - simpl. rewrite Hagain; [done|done|].
    intros b i j ea da na na' Hea Hda Hna Hna' _. split; [done|congruence].
Qed.

Lemma X4_feed_twice_witness :
  0 < 2 ∧ wf_array 2 1 2 sample_1 ∧ wf_array 2 1 2 sample_2 ∧
  CustomFourthBandH.feeds CustomFourthBandH.init [sample_2; sample_2]
    = CustomFourthBandH.feeds CustomFourthBandH.init [sample_2].
Proof.
  assert (H0 : 0 < 2) by lia.
  split; [exact H0|]. split; [exact sample_1_array|]. split; [exact sample_2_array|].
  exact (proj2 (X4_feed_twice 2 1 2 sample_1 sample_2 H0 sample_1_array sample_2_array)).
Defined.

(** ** Arrays without bands *)

(** X5.  The first array fed is taken without any check.  If it has no
    band, or if a later array has none, [feed] raises IndexError; so after
    a first array without bands every further [feed] fails. *)
Theorem X5_no_band_index_error (m a : ma.MaskedArray) (rest : list ma.MaskedArray) :
  ma.data m = [] ∨ ma.data a = [] →
  CustomFourthBandH.feed CustomFourthBandH.init m
    = Ok {| CustomFourthBandH.mosaic := Some m |} ∧
  CustomFourthBandH.feed {| CustomFourthBandH.mosaic := Some m |} a = Raise IndexError ∧
  CustomFourthBandH.feeds CustomFourthBandH.init (m :: a :: rest) = Raise IndexError.
Proof.
  intros Hempty.
  assert (Hfeed : CustomFourthBandH.feed {| CustomFourthBandH.mosaic := Some m |} a
                  = Raise IndexError).
  { unfold CustomFourthBandH.feed. simpl.
    destruct Hempty as [-> | ->]; simpl; [|done].
    by destruct (last (ma.data a)). }
  split_and!; [done|done|]. simpl. by rewrite Hfeed.
Qed.

Lemma X5_no_band_index_error_witness :
  (ma.data {| ma.data := []; ma.mask := [] |} = [] ∨ ma.data sample_1 = []) ∧
  CustomFourthBandH.feeds CustomFourthBandH.init
    [{| ma.data := []; ma.mask := [] |}; sample_1; sample_2] = Raise IndexError.
Proof.
  assert (H : ma.data {| ma.data := []; ma.mask := [] |} = [] ∨ ma.data sample_1 = [])
    by (left; reflexivity).
  split; [exact H|].
  exact (proj2 (proj2 (X5_no_band_index_error
                         {| ma.data := []; ma.mask := [] |} sample_1 [sample_2] H))).
Defined.

(** ** Routes and paths *)

Lemma literal_app lit s : routes.literal lit (lit ++ s)%string = Some s.
Proof.
  induction lit as [|a lit IH]; simpl; [done|]. by rewrite Ascii.eqb_refl.
Qed.

Lemma literal_inv lit s r : routes.literal lit s = Some r → s = (lit ++ r)%string.
Proof.
  revert s. induction lit as [|a lit IH]; intros s; simpl.
  - by intros [= ->].
  - destruct s as [|c s]; [done|].
    destruct (Ascii.eqb a c) eqn:Hac; [|done].
    apply Ascii.eqb_eq in Hac as ->. intros Hr. by rewrite (IH s Hr).
Qed.

Lemma span_app class g rest :
  all_in class g = true → stops class rest →
  routes.span class (g ++ rest)%string = (g, rest).
Proof.
  intros Hg Hrest. induction g as [|c g IH]; simpl in *.
  - destruct rest as [|c rest]; [done|]. simpl in *. by rewrite Hrest.
  - apply andb_true_iff in Hg as [Hc Hg]. by rewrite Hc, (IH Hg).
Qed.

Lemma span_inv class s g rest :
  routes.span class s = (g, rest) →
  s = (g ++ rest)%string ∧ all_in class g = true ∧ stops class rest.
Proof.
  revert g rest. induction s as [|c s IH]; intros g rest; simpl.
  - by intros [= <- <-].
  - destruct (class c) eqn:Hc.
    + destruct (routes.span class s) as [g' rest'] eqn:Hs. simpl.
      intros [= <- <-]. destruct (IH g' rest' eq_refl) as (-> & Hg & Hr).
      simpl. by rewrite Hc, Hg.
    + intros [= <- <-]. simpl. by rewrite Hc.
Qed.

Lemma group_app class g rest :
  g ≠ EmptyString → all_in class g = true → stops class rest →
  routes.group class (g ++ rest)%string = Some (g, rest).
Proof.
  intros Hne Hg Hrest. unfold routes.group. rewrite span_app by done.
  by destruct g.
Qed.

Lemma group_inv class s g rest :
  routes.group class s = Some (g, rest) →
  s = (g ++ rest)%string ∧ g ≠ EmptyString ∧ all_in class g = true ∧
  stops class rest.
Proof.
  unfold routes.group. destruct (routes.span class s) as [g' rest'] eqn:Hs.
  destruct (span_inv class s g' rest' Hs) as (-> & Hg & Hr).
  destruct g' as [|c g']; [done|]. intros [= <- <-]. by split_and!.
Qed.

(** One step of a route: the binds are reduced, the pieces of the pattern
    are left for the lemmas above. *)
Tactic Notation "route_cbn" :=
  cbn -[routes.literal routes.group routes.at_end append].
Tactic Notation "route_cbn" "in" hyp(H) :=
  cbn -[routes.literal routes.group routes.at_end append] in H.

Lemma append_nil_r (s : string) : (s ++ "")%string = s.
Proof. induction s; simpl; congruence. Qed.

Lemma at_end_inv e :
  routes.at_end e = true ↔ e = EmptyString ∨ e = routes.newline.
Proof.
  split.
  - destruct e as [|c [|c' e]]; simpl; [by left| |done].
    intros Hc. apply Ascii.eqb_eq in Hc as ->. by right.
  - by intros [-> | ->].
Qed.

Lemma end_stops class e :
  class "010"%char = false → e = EmptyString ∨ e = routes.newline →
  stops class e.
Proof. by intros Hc [-> | ->]. Qed.

Lemma tiles_matches_end gz gx gy e :
  digits gz → digits gx → digits gy → e = EmptyString ∨ e = routes.newline →
  routes.tiles ("/tiles/" ++ gz ++ "/" ++ gx ++ "/" ++ gy ++ e)%string
  = Some (gz, gx, gy).
Proof.
  intros [Hz1 Hz2] [Hx1 Hx2] [Hy1 Hy2] He. unfold routes.tiles.
  assert (Hslash : ∀ s, stops routes.is_digit ("/" ++ s)%string)
    by (intros s; reflexivity).
  assert (Hstop : stops routes.is_digit e) by (by apply end_stops).
  rewrite literal_app. route_cbn.
  rewrite (group_app routes.is_digit gz) by done. route_cbn.
  rewrite (literal_app "/"). route_cbn.
  rewrite (group_app routes.is_digit gx) by done. route_cbn.
  rewrite (literal_app "/"). route_cbn.
  rewrite (group_app routes.is_digit gy) by done. route_cbn.
  by rewrite (proj2 (at_end_inv e) He).
Qed.

Lemma tiles_matches gz gx gy :
  digits gz → digits gx → digits gy →
  routes.tiles ("/tiles/" ++ gz ++ "/" ++ gx ++ "/" ++ gy)%string
  = Some (gz, gx, gy).
Proof.
  intros Hz Hx Hy.
  pose proof (tiles_matches_end gz gx gy EmptyString Hz Hx Hy (or_introl eq_refl))
    as H.
  by rewrite append_nil_r in H.
Qed.

Lemma tms_tiles_matches_end tms gz gx gy e :
  word tms → digits gz → digits gx → digits gy →
  e = EmptyString ∨ e = routes.newline →
  routes.tms_tiles
    ("/tiles/" ++ tms ++ "/" ++ gz ++ "/" ++ gx ++ "/" ++ gy ++ e)%string
  = Some (tms, gz, gx, gy).
Proof.
  intros [Ht1 Ht2] [Hz1 Hz2] [Hx1 Hx2] [Hy1 Hy2] He. unfold routes.tms_tiles.
  assert (Hslash : ∀ s, stops routes.is_digit ("/" ++ s)%string)
    by (intros s; reflexivity).
  assert (Hslashw : ∀ s, stops routes.is_word ("/" ++ s)%string)
    by (intros s; reflexivity).
  assert (Hstop : stops routes.is_digit e) by (by apply end_stops).
  rewrite literal_app. route_cbn.
  rewrite (group_app routes.is_word tms) by done. route_cbn.
  rewrite (literal_app "/"). route_cbn.
  rewrite (group_app routes.is_digit gz) by done. route_cbn.
  rewrite (literal_app "/"). route_cbn.
  rewrite (group_app routes.is_digit gx) by done. route_cbn.
  rewrite (literal_app "/"). route_cbn.
  rewrite (group_app routes.is_digit gy) by done. route_cbn.
  by rewrite (proj2 (at_end_inv e) He).
Qed.

Lemma tms_tiles_matches tms gz gx gy :
  word tms → digits gz → digits gx → digits gy →
  routes.tms_tiles ("/tiles/" ++ tms ++ "/" ++ gz ++ "/" ++ gx ++ "/" ++ gy)%string
  = Some (tms, gz, gx, gy).
Proof.
  intros Ht Hz Hx Hy.
  pose proof (tms_tiles_matches_end tms gz gx gy EmptyString Ht Hz Hx Hy
                (or_introl eq_refl)) as H.
  by rewrite append_nil_r in H.
Qed.

(** X6.  The route of the non-Earth server matches exactly the paths
    [/tiles/z/x/y] where z, x and y are non-empty strings of decimal
    digits, and these paths followed by one line feed (which [$] lets
    through); it captures the three strings of digits.  The route of the
    tile-matrix-set server does the same with a leading non-empty string of
    word characters.  Signs, empty or missing segments and any other text
    after the last digits are not matched. *)
Theorem X6_routes_accept (path tms gz gx gy : string) :
  (routes.tiles path = Some (gz, gx, gy) ↔
   (path = ("/tiles/" ++ gz ++ "/" ++ gx ++ "/" ++ gy)%string ∨
    path = ("/tiles/" ++ gz ++ "/" ++ gx ++ "/" ++ gy ++ routes.newline)%string) ∧
   digits gz ∧ digits gx ∧ digits gy) ∧
  (routes.tms_tiles path = Some (tms, gz, gx, gy) ↔
   (path = ("/tiles/" ++ tms ++ "/" ++ gz ++ "/" ++ gx ++ "/" ++ gy)%string ∨
    path = ("/tiles/" ++ tms ++ "/" ++ gz ++ "/" ++ gx ++ "/" ++ gy
            ++ routes.newline)%string) ∧
   word tms ∧ digits gz ∧ digits gx ∧ digits gy).
Proof.
  split; split.
  - unfold routes.tiles. intros H.
    destruct (routes.literal "/tiles/" path) as [r0|] eqn:H0;
      route_cbn in H; [|done].
    destruct (routes.group routes.is_digit r0) as [[z r1]|] eqn:H1;
      route_cbn in H; [|done].
    destruct (routes.literal "/" r1) as [r2|] eqn:H2; route_cbn in H; [|done].
    destruct (routes.group routes.is_digit r2) as [[x r3]|] eqn:H3;
      route_cbn in H; [|done].
    destruct (routes.literal "/" r3) as [r4|] eqn:H4; route_cbn in H; [|done].
    destruct (routes.group routes.is_digit r4) as [[y r5]|] eqn:H5;
      route_cbn in H; [|done].
    destruct (routes.at_end r5) eqn:He; [|done]. injection H as <- <- <-.
    apply at_end_inv in He.
    apply literal_inv in H0, H2, H4.
    apply group_inv in H1 as (-> & ? & ? & _).
    apply group_inv in H3 as (-> & ? & ? & _).
    apply group_inv in H5 as (-> & ? & ? & _).
    subst. split_and!; try done.
    destruct He as [-> | ->]; [left; by rewrite append_nil_r | by right].
  - intros ([-> | ->] & ? & ? & ?); [by apply tiles_matches|].
    apply tiles_matches_end; by try right.
  - unfold routes.tms_tiles. intros H.
    destruct (routes.literal "/tiles/" path) as [r0|] eqn:H0;
      route_cbn in H; [|done].
    destruct (routes.group routes.is_word r0) as [[t r1]|] eqn:H1;
      route_cbn in H; [|done].
    destruct (routes.literal "/" r1) as [r2|] eqn:H2; route_cbn in H; [|done].
    destruct (routes.group routes.is_digit r2) as [[z r3]|] eqn:H3;
      route_cbn in H; [|done].
    destruct (routes.literal "/" r3) as [r4|] eqn:H4; route_cbn in H; [|done].
    destruct (routes.group routes.is_digit r4) as [[x r5]|] eqn:H5;
      route_cbn in H; [|done].
    destruct (routes.literal "/" r5) as [r6|] eqn:H6; route_cbn in H; [|done].
    destruct (routes.group routes.is_digit r6) as [[y r7]|] eqn:H7;
      route_cbn in H; [|done].
    destruct (routes.at_end r7) eqn:He; [|done]. injection H as <- <- <- <-.
    apply at_end_inv in He.
    apply literal_inv in H0, H2, H4, H6.
    apply group_inv in H1 as (-> & ? & ? & _).
    apply group_inv in H3 as (-> & ? & ? & _).
    apply group_inv in H5 as (-> & ? & ? & _).
    apply group_inv in H7 as (-> & ? & ? & _).
    subst. split_and!; try done.
    destruct He as [-> | ->]; [left; by rewrite append_nil_r | by right].
  - intros ([-> | ->] & ? & ? & ? & ?); [by apply tms_tiles_matches|].
    apply tms_tiles_matches_end; by try right.
Qed.

(** A line feed after the last digits is let through; anything else is
    not, nor is a line feed elsewhere. *)
Example tiles_line_feed :
  routes.tiles ("/tiles/3/2/1" ++ routes.newline) = Some ("3", "2", "1")%string ∧
  routes.tiles ("/tiles/3/2/1" ++ routes.newline ++ routes.newline) = None ∧
  routes.tiles "/tiles/3/2/1/" = None ∧
  routes.tiles "/tiles/3/-2/1" = None ∧
  routes.tms_tiles ("/tiles/a_b9/3/2/1" ++ routes.newline)
    = Some ("a_b9", "3", "2", "1")%string.
Proof. by split_and!. Qed.

(** ** Requests *)









(** ** The custom tiler *)

Lemma concatenate_same_shape {A : Type} (x y : cube A) n m h w :
  has_shape n h w x → has_shape m h w y →
  MosaicNotebook.concatenate x y = Ok (x ++ y).
Proof.
  unfold has_shape, MosaicNotebook.concatenate. intros Hx Hy.
  rewrite Hx, Hy, <- replicate_add.
  destruct (n + m) as [|k] eqn:Hk; simpl.
  - destruct n, m; try discriminate Hk. by destruct x, y.
  - assert (H : forallb (λ g', bool_decide (g' = replicate h w))
                  (replicate k (replicate h w)) = true).
    { clear Hk. induction k as [|k IH]; simpl; [done|].
      rewrite bool_decide_true by done. exact IH. }
    by rewrite H.
Qed.

(** X9.  The second custom tiler puts the NDVI behind the visual bands:
    when both reads of the item succeed, on one pixel grid, with a
    one-band NDVI, the tile it returns has the bands of the visual image
    followed by the NDVI band, which is therefore the band CustomFourthBandH
    decides on; and what the data property of a CustomFourthBandH that was
    fed this tile returns has exactly the bands of the visual image. *)
Theorem X9_custom_tiler_bands {Asset Args Mask Crs Bounds : Type}
    (tile : Asset → Args → MosaicNotebook.Selection →
            result (MosaicNotebook.ImageData Mask Crs Bounds))
    (asset : Asset) (args : Args)
    (img ndvi : MosaicNotebook.ImageData Mask Crs Bounds) (n h w : nat) :
  tile asset args (MosaicNotebook.assets "visual") = Ok img →
  tile asset args (MosaicNotebook.expression "(B08_b1-B04_b1)/(B08_b1+B04_b1)")
    = Ok ndvi →
  has_shape n h w (MosaicNotebook.data img) →
  has_shape 1 h w (MosaicNotebook.data ndvi) →
  ∃ out,
    MosaicNotebook.custom_tiler tile asset args = Ok out ∧
    MosaicNotebook.data out
      = MosaicNotebook.data img ++ MosaicNotebook.data ndvi ∧
    has_shape (S n) h w (MosaicNotebook.data out) ∧
    last (MosaicNotebook.data out) = last (MosaicNotebook.data ndvi) ∧
    ∀ mask, ∃ s,
      CustomFourthBandH.feed CustomFourthBandH.init
        {| ma.data := MosaicNotebook.data out; ma.mask := mask |} = Ok s ∧
      ma.data <$> CustomFourthBandH.data s = Some (MosaicNotebook.data img).
Proof.
  intros Himg Hndvi Hs1 Hs2. unfold MosaicNotebook.custom_tiler.
  rewrite Himg, Hndvi. simpl.
  rewrite (concatenate_same_shape _ _ n 1 h w) by done. simpl.
  eexists. split; [done|]. simpl.
  destruct (MosaicNotebook.data ndvi) as [|g [|g' rest]] eqn:Hd;
    try discriminate Hs2.
  split_and!.
  - done.
  - unfold has_shape, numpy.shape in *. rewrite map_app, Hs1.
    simpl in Hs2 |- *. injection Hs2 as ->.
    by rewrite <- replicate_cons_app.
  - by rewrite last_snoc.
  - intros mask. eexists. split; [done|]. simpl.
    unfold ma.drop_last. simpl. by rewrite removelast_last.
Qed.

Lemma X9_custom_tiler_bands_witness :
  ∃ out,
    MosaicNotebook.custom_tiler
      (λ (_ _ : unit) sel,
         match sel with
         | MosaicNotebook.assets _ =>
             Ok (MosaicNotebook.Build [[[1; 2]]; [[3; 4]]; [[5; 6]]]%Z tt tt tt)
         | MosaicNotebook.expression _ =>
             Ok (MosaicNotebook.Build [[[7; 8]]]%Z tt tt tt)
         end) tt tt = Ok out ∧
    MosaicNotebook.data out
      = [[[1; 2]]; [[3; 4]]; [[5; 6]]; [[7; 8]]]%Z.
Proof.
  destruct (X9_custom_tiler_bands
    (λ (_ _ : unit) sel,
       match sel with
       | MosaicNotebook.assets _ =>
           Ok (MosaicNotebook.Build [[[1; 2]]; [[3; 4]]; [[5; 6]]]%Z tt tt tt)
       | MosaicNotebook.expression _ =>
           Ok (MosaicNotebook.Build [[[7; 8]]]%Z tt tt tt)
       end) tt tt
    (MosaicNotebook.Build [[[1; 2]]; [[3; 4]]; [[5; 6]]]%Z tt tt tt)
    (MosaicNotebook.Build [[[7; 8]]]%Z tt tt tt) 3 1 2
    eq_refl eq_refl eq_refl eq_refl) as (out & Hout & Hdata & _).
  exists out. split; [exact Hout | exact Hdata].
Defined.

(** ** Numbers in paths *)

Lemma int_leading_zero s :
  s ≠ EmptyString → String.length s < 4300 →
  routes.int_ (String "0" s) = routes.int_ s.
Proof.
  intros Hne Hlen. destruct s as [|c s]; [done|].
  unfold routes.int_.
  destruct (Nat.ltb_spec 4300 (String.length (String "0" (String c s))))
    as [Hlt|_]; [simpl in *; lia|].
  destruct (Nat.ltb_spec 4300 (String.length (String c s)))
    as [Hlt|_]; [simpl in *; lia|].
  change (NilEmpty.uint_of_string (String "0" (String c s)))
    with (match NilEmpty.uint_of_string (String c s) with
          | Some d => Some (D0 d) | None => None end).
  by destruct (NilEmpty.uint_of_string (String c s)).
Qed.

Lemma digits_leading_zero s : digits s → digits (String "0" s).
Proof. intros [_ Hs]. split; [done|]. simpl. exact Hs. Qed.

(** X10.  Leading zeros in a coordinate do not change the answer of the
    non-Earth server: the route captures them with the digits and [int]
    drops them, so that [/tiles/0z/0x/0y] is answered as [/tiles/z/x/y]
    is, whatever the reader does. *)
Theorem X10_leading_zeros {ImageData Bytes : Type}
    (tile : nat → nat → nat → result ImageData)
    (post_process : ImageData → result ImageData)
    (render : ImageData → result Bytes) (gz gx gy : string) :
  digits gz → digits gx → digits gy →
  String.length gz < 4300 → String.length gx < 4300 →
  String.length gy < 4300 →
  NonEarthApplication.request tile post_process render
    ("/tiles/0" ++ gz ++ "/0" ++ gx ++ "/0" ++ gy)
  = NonEarthApplication.request tile post_process render
      ("/tiles/" ++ gz ++ "/" ++ gx ++ "/" ++ gy).
Proof.
  intros Hz Hx Hy Lz Lx Ly. unfold NonEarthApplication.request.
  rewrite (tiles_matches gz gx gy) by done.
  change ("/tiles/0" ++ gz ++ "/0" ++ gx ++ "/0" ++ gy)%string
    with ("/tiles/" ++ String "0" gz ++ "/" ++ String "0" gx ++ "/"
          ++ String "0" gy)%string.
  rewrite tiles_matches by (by apply digits_leading_zero).
  unfold NonEarthApplication.get.
  by rewrite !int_leading_zero by (done || by destruct Hz, Hx, Hy).
Qed.

Lemma X10_leading_zeros_witness :
  NonEarthApplication.request
    (λ x y z, if (x =? 2) && (y =? 1) && (z =? 3) then Ok 7%Z
              else Raise TileOutsideBounds)
    (λ d, Ok d) (λ d, Ok [d]) "/tiles/03/02/01"
  = NonEarthApplication.request
    (λ x y z, if (x =? 2) && (y =? 1) && (z =? 3) then Ok 7%Z
              else Raise TileOutsideBounds)
    (λ d, Ok d) (λ d, Ok [d]) "/tiles/3/2/1".
Proof.
  apply (X10_leading_zeros
    (λ x y z, if (x =? 2) && (y =? 1) && (z =? 3) then Ok 7%Z
              else Raise TileOutsideBounds)
    (λ d, Ok d) (λ d, Ok [d]) "3" "2" "1");
    first [simpl; lia | split; [discriminate | reflexivity]].
Defined.

(** ** The life cycle of the tile servers *)

Lemma filter_fresh w s :
  wf_world w → HTTPServer.created w ≤ s →
  List.filter (λ x, negb (x.2 =? s)) (HTTPServer.sockets w)
  = HTTPServer.sockets w.
Proof.
  unfold wf_world. intros Hwf Hs.
  induction Hwf as [|[p o] l Ho _ IH]; simpl in *; [done|].
  destruct (Nat.eqb_spec o s); [lia|]. simpl. by rewrite IH.
Qed.

(** X11.  Start, then stop: on a machine where port 8080 is free, [start]
    does not raise and leaves the server's new HTTP server listening on
    port 8080, the other ports being as they were; [stop] then closes that
    socket and no other, so that the machine is back where it was and the
    server can be started again. *)
Theorem X11_start_then_stop (self : TileServer.t) (w : HTTPServer.World) :
  wf_world w → HTTPServer.owner w 8080 = None →
  ∃ self' w',
    TileServer.start self w = (self', w', Ok tt) ∧
    is_Some (TileServer.server self') ∧
    HTTPServer.owner w' 8080 = TileServer.server self' ∧
    (∀ port, port ≠ 8080%N → HTTPServer.owner w' port = HTTPServer.owner w port) ∧
    HTTPServer.sockets (TileServer.stop self' w') = HTTPServer.sockets w ∧
    ∃ self'' w'',
      TileServer.start self' (TileServer.stop self' w') = (self'', w'', Ok tt).
Proof.
  intros Hwf Hfree. unfold TileServer.start, HTTPServer.new, HTTPServer.listen.
  assert (Hfree' : ∀ c, HTTPServer.owner
            {| HTTPServer.created := c; HTTPServer.sockets := HTTPServer.sockets w |}
            8080 = None) by (intros c; exact Hfree).
  rewrite Hfree'. do 2 eexists. split; [done|]. simpl.
  assert (Hstop : List.filter (λ x, negb (x.2 =? HTTPServer.created w))
                    (HTTPServer.sockets w) = HTTPServer.sockets w)
    by (by apply filter_fresh).
  split_and!.
  - done.
  - done.
  - intros port Hport. unfold HTTPServer.owner. cbn -[N.eqb].
    by destruct (N.eqb_spec 8080 port).
  - unfold TileServer.stop, HTTPServer.stop. simpl.
    by rewrite Nat.eqb_refl.
  - unfold TileServer.stop, HTTPServer.stop. simpl.
    rewrite Nat.eqb_refl. simpl. rewrite Hstop.
    unfold HTTPServer.owner in *. simpl. rewrite Hfree. simpl. by do 2 eexists.
Qed.

Lemma X11_start_then_stop_witness :
  ∃ self' w',
    TileServer.start TileServer.__init__
      {| HTTPServer.created := 1; HTTPServer.sockets := [(8888%N, 0)] |}
    = (self', w', Ok tt) ∧
    HTTPServer.sockets (TileServer.stop self' w') = [(8888%N, 0)].
Proof.
  destruct (X11_start_then_stop TileServer.__init__
    {| HTTPServer.created := 1; HTTPServer.sockets := [(8888%N, 0)] |})
    as (self' & w' & Hstart & _ & _ & _ & Hstop & _).
  - repeat constructor.
  - reflexivity.
  - by exists self', w'.
Defined.

(** X12.  Start on a taken port: when a server already listens on port
    8080 (for instance the one of an earlier [start] of the same object),
    [start] raises, and the object then holds a server that never
    listened: its [stop] closes nothing, and the port stays with the
    server that had it. *)
Theorem X12_start_on_taken_port (self : TileServer.t) (w : HTTPServer.World)
    (s : nat) :
  wf_world w → HTTPServer.owner w 8080 = Some s →
  ∃ self' w',
    TileServer.start self w = (self', w', Raise OtherError) ∧
    HTTPServer.sockets w' = HTTPServer.sockets w ∧
    HTTPServer.sockets (TileServer.stop self' w') = HTTPServer.sockets w ∧
    HTTPServer.owner (TileServer.stop self' w') 8080 = Some s.
Proof.
  intros Hwf Htaken. unfold TileServer.start, HTTPServer.new, HTTPServer.listen.
  assert (Htaken' : ∀ c, HTTPServer.owner
            {| HTTPServer.created := c; HTTPServer.sockets := HTTPServer.sockets w |}
            8080 = Some s) by (intros c; exact Htaken).
  rewrite Htaken'. do 2 eexists. split; [done|]. simpl.
  assert (Hstop : List.filter (λ x, negb (x.2 =? HTTPServer.created w))
                    (HTTPServer.sockets w) = HTTPServer.sockets w)
    by (by apply filter_fresh).
  unfold TileServer.stop, HTTPServer.stop. simpl. rewrite Hstop.
  split_and!; try done.
Qed.

Lemma X12_start_on_taken_port_witness :
  ∃ self1 w1 self2 w2,
    TileServer.start TileServer.__init__
      {| HTTPServer.created := 0; HTTPServer.sockets := [] |}
    = (self1, w1, Ok tt) ∧
    TileServer.start self1 w1 = (self2, w2, Raise OtherError) ∧
    HTTPServer.owner (TileServer.stop self2 w2) 8080 = Some 0.
Proof.
  exists {| TileServer.server := Some 0 |},
    {| HTTPServer.created := 1; HTTPServer.sockets := [(8080%N, 0)] |}.
  destruct (X12_start_on_taken_port {| TileServer.server := Some 0 |}
    {| HTTPServer.created := 1; HTTPServer.sockets := [(8080%N, 0)] |} 0)
    as (self2 & w2 & Hstart & _ & _ & Hown).
  - repeat constructor.
  - reflexivity.
  - exists self2, w2. split; [reflexivity|]. split; [exact Hstart | exact Hown].
Defined.
